(** * Walk-forward portfolio back-test: [solution_skeleton.py]

    A shallow embedding of the three functions of the script
    ([equalise_weights], [generate_portfolio], [plot_total_return]) and of the
    pandas / numpy operations they call, followed by the properties of the
    specification stated against that embedding.

    Numbers.  A float64 cell is modelled as [option Q]: [None] is NaN and
    [Some q] is the number [q], with exact rational arithmetic standing for
    the rounded floating-point operations.  Infinities are not represented:
    the only divisions of the script are by [0.5], by a column count that the
    interpreter has already checked, and by observation counts that pandas
    guards itself.

    Frames.  Every frame of a run carries the same ordered list of stock
    columns (the fixed universe of the data model), so the selection
    [df[list_stocks]] is the row's value list, position by position. *)

From Stdlib Require Import String Bool ZArith QArith Qfield Lqa Lia List.
From Stdlib Require Import Sorting.Sorted Sorting.Permutation.
Import ListNotations.

Open Scope Z_scope.
Open Scope nat_scope.

(** ** Python results *)

Inductive exn : Type :=
| ZeroDivisionError
| ValueError
| Exception (msg : string).

Inductive result (A : Type) : Type :=
| Ok (a : A)
| Raise (e : exn).
Arguments Ok {A} a.
Arguments Raise {A} e.

Definition bind {A B : Type} (r : result A) (k : A -> result B) : result B :=
  match r with
  | Ok a => k a
  | Raise e => Raise e
  end.

Notation "x <- r ;; k" := (bind r (fun x => k))
  (at level 61, r at next level, right associativity).

(** ** float64 cells *)

Definition cell : Type := option Q.

Definition NaN : cell := None.

Definition num (q : Q) : cell := Some q.

Definition lift2 (f : Q -> Q -> Q) (a b : cell) : cell :=
  match a, b with
  | Some x, Some y => Some (f x y)
  | _, _ => None
  end.

Definition fadd : cell -> cell -> cell := lift2 Qplus.
Definition fsub : cell -> cell -> cell := lift2 Qminus.
Definition fmul : cell -> cell -> cell := lift2 Qmult.

(** [a / b] on float64 values; a zero divisor would give an infinity or NaN
    in numpy and is mapped to NaN. *)
Definition fdiv (a b : cell) : cell :=
  match a, b with
  | Some x, Some y => if Qeq_bool y 0 then None else Some (x / y)%Q
  | _, _ => None
  end.

(** [a ** 3] *)
Definition fcube (a : cell) : cell :=
  match a with
  | Some x => Some (x * x * x)%Q
  | None => None
  end.

Definition Qlt_bool (x y : Q) : bool := negb (Qle_bool y x).

(** [a > q]: a comparison with NaN is [False]. *)
Definition fgt (a : cell) (q : Q) : bool :=
  match a with
  | Some x => Qlt_bool q x
  | None => false
  end.

(** Equality of cells as numbers: NaN cells correspond to each other, numbers
    are compared as rationals. *)
Definition cell_eq (a b : cell) : Prop :=
  match a, b with
  | Some x, Some y => (x == y)%Q
  | None, None => True
  | _, _ => False
  end.

Definition Qsum (l : list Q) : Q := fold_right Qplus 0%Q l.

Definition Qprod (l : list Q) : Q := fold_right Qmult 1%Q l.

(** Python's true division of two ints, [a / b]. *)
Definition py_truediv (a b : nat) : result cell :=
  match b with
  | O => Raise ZeroDivisionError
  | S _ => Ok (Some (inject_Z (Z.of_nat a) / inject_Z (Z.of_nat b))%Q)
  end.

(** ** numpy *)

Fixpoint zip_with {A B C : Type} (f : A -> B -> C) (l : list A) (m : list B)
  : list C :=
  match l, m with
  | a :: l', b :: m' => f a b :: zip_with f l' m'
  | _, _ => []
  end.

(** [np.sum] of a vector: NaN propagates. *)
Definition np_sum (v : list cell) : cell := fold_right fadd (num 0) v.

(** [np.dot] of two vectors of the same length. *)
Definition np_dot (u v : list cell) : cell := np_sum (zip_with fmul u v).

(** [np.dot] of a matrix and a vector. *)
Definition np_matvec (m : list (list cell)) (v : list cell) : list cell :=
  map (fun r => np_dot r v) m.

(** [np.ones(n) / n] *)
Definition np_ones_div (n : nat) : list cell :=
  repeat (fdiv (num 1) (num (inject_Z (Z.of_nat n)))) n.

(** [np.nan_to_num(x, nan=0)] on one cell. *)
Definition nan_to_num (c : cell) : cell :=
  match c with
  | Some x => Some x
  | None => Some 0%Q
  end.

(** ** pandas frames *)

(** A [datetime.date], as its day ordinal. *)
Definition date : Type := Z.

(** A row of a return frame: the [month_end] column and one cell per stock. *)
Record Row : Type := mkRow {
  month_end : date;
  values : list cell
}.

Arguments mkRow month_end%_Z values%_list.

Record DataFrame : Type := mkDF {
  columns : list string;   (* the stock columns, [month_end] removed *)
  rows : list Row
}.

(** A row of a weights frame.  [w_index] is the row label when the frame is
    indexed by [month_end] (after [set_index]) and [None] under a positional
    index; [w_month_end] is the [month_end] column, [None] where the column
    holds NaN or is absent. *)
Record WRow : Type := mkWRow {
  w_index : option date;
  w_month_end : option date;
  w_values : list cell
}.

Record WeightFrame : Type := mkWF {
  w_columns : list string;
  w_rows : list WRow
}.

(** [pd.concat(objs=[a, b], ignore_index=True)] of two return frames over the
    same universe. *)
Definition concat_returns (a b : DataFrame) : DataFrame :=
  {| columns := columns a; rows := rows a ++ rows b |}.

(** [df[:n]] *)
Definition head_rows (df : DataFrame) (n : nat) : DataFrame :=
  {| columns := columns df; rows := firstn n (rows df) |}.

(** ** [equalise_weights] *)

Definition equalise_weights (df : DataFrame) : result WeightFrame :=
  let n_length := length (rows df) in
  let df_returns := df in
  let df_weights := firstn n_length (rows df_returns) in
  let list_stocks := columns df_returns in
  w <- py_truediv 1 (length list_stocks) ;;
  Ok {| w_columns := list_stocks;
        w_rows := map (fun r => {| w_index := Some (month_end r);
                                   w_month_end := None;
                                   w_values := map (fun _ => w) list_stocks |})
                      df_weights |}.

(** ** The walk-forward estimator: [DataFrame.mean] and [DataFrame.cov] *)

(** [df_returns[df_returns["month_end"] < d]] *)
Definition select_before (df : DataFrame) (d : date) : DataFrame :=
  {| columns := columns df;
     rows := filter (fun r => (month_end r <? d)%Z) (rows df) |}.

(** The cells of stock column [j], top to bottom. *)
Definition column (j : nat) (df : DataFrame) : list cell :=
  map (fun r => nth j (values r) NaN) (rows df).

(** The observations of a series, NaN cells skipped ([skipna=True]). *)
Fixpoint dropna (c : list cell) : list Q :=
  match c with
  | [] => []
  | Some v :: c' => v :: dropna c'
  | None :: c' => dropna c'
  end.

Definition Qcount {A : Type} (l : list A) : Q := inject_Z (Z.of_nat (length l)).

Definition Qmean (l : list Q) : Q := (Qsum l / Qcount l)%Q.

(** [Series.mean()]: the mean of the observations present, NaN when there is
    none. *)
Definition series_mean (c : list cell) : cell :=
  match dropna c with
  | [] => NaN
  | xs => Some (Qmean xs)
  end.

(** The rows in which both series hold an observation. *)
Fixpoint pairwise_complete (a b : list cell) : list (Q * Q) :=
  match a, b with
  | Some u :: a', Some v :: b' => (u, v) :: pairwise_complete a' b'
  | _ :: a', _ :: b' => pairwise_complete a' b'
  | _, _ => []
  end.

(** Sample covariance of paired observations, [ddof=1]. *)
Definition Qcov (ps : list (Q * Q)) : Q :=
  let mx := Qmean (map fst ps) in
  let my := Qmean (map snd ps) in
  (Qsum (map (fun p => (fst p - mx) * (snd p - my)) ps) / (Qcount ps - 1))%Q.

(** One entry of [DataFrame.cov()]: pairwise deletion of NaN, NaN when fewer
    than two complete pairs remain. *)
Definition series_cov (a b : list cell) : cell :=
  let ps := pairwise_complete a b in
  if length ps <? 2 then NaN else Some (Qcov ps).

(** [df.drop(columns=["month_end"]).mean()] *)
Definition df_mean (df : DataFrame) : list cell :=
  map (fun j => series_mean (column j df)) (seq 0 (length (columns df))).

(** [df.drop(columns=["month_end"]).cov()] *)
Definition df_cov (df : DataFrame) : list (list cell) :=
  let p := length (columns df) in
  map (fun i => map (fun j => series_cov (column i df) (column j df)) (seq 0 p))
      (seq 0 p).

(** The period estimate of the loop body for the period dated [d]. *)
Definition estimate (df_returns : DataFrame) (d : date)
  : list cell * list (list cell) :=
  let df_latest := select_before df_returns d in
  (df_mean df_latest, df_cov df_latest).

(** ** [scipy.optimize.minimize] *)

Inductive constraint_type : Type := eq_constraint | ineq_constraint.

Record Constraint : Type := mkConstraint {
  c_type : constraint_type;
  c_fun : list cell -> list cell
}.

Module OptimizeResult.
Record t : Type := mk {
  x : list cell;
  success : bool
}.
End OptimizeResult.

(** The solver called with [method="SLSQP"]: objective, start point, bounds
    and constraints. *)
Definition solver : Type :=
  (list cell -> cell) -> list cell -> list (Q * Q) -> list Constraint ->
  OptimizeResult.t.

Definition bounds_of (num_stocks : nat) : list (Q * Q) :=
  repeat (0%Q, 1%Q) num_stocks.

Definition constraints : list Constraint :=
  [ {| c_type := eq_constraint;
       c_fun := fun w => [fsub (np_sum w) (num 1)] |};
    {| c_type := ineq_constraint;
       c_fun := fun w => map (fun wi => fsub (num (1 # 10)) wi) w |} ].

(** The 10% limit of the final check, [0.101]. *)
Definition limit : Q := 101 # 1000.

Definition limit_message : string := "---> 10% limit exceeded".

(** [len(a[a > 0.101])] is non-zero, over the stock columns. *)
Definition limit_exceeded (df_weights : WeightFrame) : bool :=
  existsb (fun r => existsb (fun w => fgt w limit) (w_values r))
          (w_rows df_weights).

(** [pd.DataFrame(data=[[d] + list(x)], columns=["month_end"] + list_stocks)]:
    one row, refused when the data does not have one value per column. *)
Definition frame_of_row (list_stocks : list string) (d : date) (x : list cell)
  : result WeightFrame :=
  if length x =? length list_stocks
  then Ok {| w_columns := list_stocks;
             w_rows := [ {| w_index := None; w_month_end := Some d;
                            w_values := x |} ] |}
  else Raise ValueError.

(** [ignore_index=True] on one row: the label is dropped, the columns stay. *)
Definition drop_index (r : WRow) : WRow :=
  {| w_index := None; w_month_end := w_month_end r; w_values := w_values r |}.

(** [pd.concat([a, b], ignore_index=True)] of two weights frames over the
    same stock columns. *)
Definition concat_weights (a b : WeightFrame) : WeightFrame :=
  {| w_columns := w_columns a;
     w_rows := map drop_index (w_rows a) ++ map drop_index (w_rows b) |}.

Section GeneratePortfolio.

(** [np.sqrt] *)
Variable np_sqrt : cell -> cell.

(** [scipy.optimize.minimize] *)
Variable minimize : solver.

(** The objective passed to the solver.  Its last expression is
    [portfolio_return / 0.5*(100*portfolio_volatility)**3], which Python
    reads as [(portfolio_return / 0.5) * ((100*portfolio_volatility)**3)];
    the value is returned with its sign unchanged. *)
Definition sharpe_ratio (weights expected_returns : list cell)
           (cov_matrix : list (list cell)) : cell :=
  let portfolio_return := np_dot weights expected_returns in
  let portfolio_volatility :=
    np_sqrt (np_dot weights (np_matvec cov_matrix weights)) in
  fmul (fdiv portfolio_return (num (1 # 2)))
       (fcube (fmul (num 100) portfolio_volatility)).

(** The solver call of the loop body for the period dated [d]. *)
Definition solve_period (df_returns : DataFrame) (list_stocks : list string)
           (d : date) : OptimizeResult.t :=
  let df_latest := select_before df_returns d in
  let expected_returns := df_mean df_latest in
  let cov_matrix := df_cov df_latest in
  let num_stocks := length list_stocks in
  let initial_weights := np_ones_div num_stocks in
  let bounds := bounds_of num_stocks in
  minimize (fun w => sharpe_ratio w expected_returns cov_matrix)
           initial_weights bounds constraints.

(** One iteration of [for i in range(len(df_test))]. *)
Definition period_step (df_returns : DataFrame) (list_stocks : list string)
           (d : date) (df_weights : WeightFrame) : result WeightFrame :=
  let opt_result := solve_period df_returns list_stocks d in
  let optimized_weights := OptimizeResult.x opt_result in
  df_this <- frame_of_row list_stocks d optimized_weights ;;
  Ok (concat_weights df_weights df_this).

(** The loop, over the test rows in order. *)
Fixpoint period_loop (df_returns : DataFrame) (list_stocks : list string)
         (test_rows : list Row) (df_weights : WeightFrame)
  : result WeightFrame :=
  match test_rows with
  | [] => Ok df_weights
  | r :: rest =>
      df_weights' <- period_step df_returns list_stocks (month_end r)
                                 df_weights ;;
      period_loop df_returns list_stocks rest df_weights'
  end.

(** Everything up to the 10% limit check.  The two [print] calls on the date
    spans only read the frames and are left out. *)
Definition build_weights (df_train df_test : DataFrame)
  : result (DataFrame * WeightFrame) :=
  let n_train := length (rows df_train) in
  let df_returns := concat_returns df_train df_test in
  df_weights <- equalise_weights (head_rows df_returns n_train) ;;
  let list_stocks := columns df_returns in
  df_weights' <- period_loop df_returns list_stocks (rows df_test)
                             df_weights ;;
  Ok (df_returns, df_weights').

(** The 10% limit check on the finished schedule, and the return. *)
Definition limit_check (r : DataFrame * WeightFrame)
  : result (DataFrame * WeightFrame) :=
  if limit_exceeded (snd r) then Raise (Exception limit_message) else Ok r.

Definition generate_portfolio (df_train df_test : DataFrame)
  : result (DataFrame * WeightFrame) :=
  r <- build_weights df_train df_test ;;
  limit_check r.

End GeneratePortfolio.

(** ** [plot_total_return] *)

(** Elementwise product of two 2-d arrays over the same columns; a single-row
    array is broadcast over the rows of the other, any other difference in
    the number of rows is refused. *)
Definition np_mul2d (a b : list (list cell)) : result (list (list cell)) :=
  if length a =? length b then Ok (zip_with (zip_with fmul) a b)
  else match a, b with
       | [ra], _ => Ok (map (fun rb => zip_with fmul ra rb) b)
       | _, [rb] => Ok (map (fun ra => zip_with fmul ra rb) a)
       | _, _ => Raise ValueError
       end.

(** [df[name] = v]: the vector must have one value per row of the frame. *)
Definition assign_column (n_rows : nat) (v : list cell) : result (list cell) :=
  if length v =? n_rows then Ok v else Raise ValueError.

(** A row of [df_rtn] before the total-return columns are added. *)
Record RtnRow : Type := mkRtn {
  rtn_month_end : date;
  rtn_index : cell;
  rtn_portfolio : cell
}.

(** A row of the returned [df_rtn]. *)
Record TotalReturnRow : Type := mkTR {
  tr_month_end : date;
  index : cell;
  portfolio : cell;
  index_tr : cell;
  portfolio_tr : cell
}.

Fixpoint zip_rows (d : list date) (vi vp : list cell) : list RtnRow :=
  match d, vi, vp with
  | d0 :: d', i0 :: vi', p0 :: vp' => mkRtn d0 i0 p0 :: zip_rows d' vi' vp'
  | _, _, _ => []
  end.

(** [sort_values(by="month_end")], ascending.  pandas leaves the order of
    rows of equal date to the sorting algorithm; here they keep the order of
    the frame. *)
Fixpoint insert_by_date (r : RtnRow) (l : list RtnRow) : list RtnRow :=
  match l with
  | [] => [r]
  | h :: t => if (rtn_month_end r <=? rtn_month_end h)%Z
              then r :: h :: t
              else h :: insert_by_date r t
  end.

Definition sort_values (l : list RtnRow) : list RtnRow :=
  fold_right insert_by_date [] l.

(** [Series.cumprod()]: a NaN entry stays NaN and is left out of the running
    product ([skipna=True]). *)
Fixpoint cumprod_from (acc : Q) (s : list cell) : list cell :=
  match s with
  | [] => []
  | Some v :: s' => Some (acc * v)%Q :: cumprod_from (acc * v)%Q s'
  | None :: s' => None :: cumprod_from acc s'
  end.

Definition cumprod (s : list cell) : list cell := cumprod_from 1%Q s.

Definition base_price : Q := 100.

(** [((1 + s).cumprod()) * base_price] *)
Definition total_return (s : list cell) : list cell :=
  map (fun c => fmul c (num base_price)) (cumprod (map (fadd (num 1)) s)).

Fixpoint zip_total (l : list RtnRow) (itr ptr : list cell)
  : list TotalReturnRow :=
  match l, itr, ptr with
  | r :: l', i0 :: itr', p0 :: ptr' =>
      mkTR (rtn_month_end r) (rtn_index r) (rtn_portfolio r) i0 p0
      :: zip_total l' itr' ptr'
  | _, _, _ => []
  end.

(** The frame [df_rtn] returned by [plot_total_return]; the figure drawn from
    it is a rendering of the same columns. *)
Definition plot_total_return (df_returns : DataFrame)
           (df_weights_index df_weights_portfolio : WeightFrame)
  : result (list TotalReturnRow) :=
  let ar_returns := map (fun r => map nan_to_num (values r)) (rows df_returns) in
  ar_rtn_index <-
    np_mul2d (map w_values (w_rows df_weights_index)) ar_returns ;;
  ar_rtn_port <-
    np_mul2d (map w_values (w_rows df_weights_portfolio)) ar_returns ;;
  let v_rtn_index := map np_sum ar_rtn_index in
  let v_rtn_port := map np_sum ar_rtn_port in
  let n_rows := length (rows df_returns) in
  c_index <- assign_column n_rows v_rtn_index ;;
  c_port <- assign_column n_rows v_rtn_port ;;
  let df_rtn :=
    sort_values (zip_rows (map month_end (rows df_returns)) c_index c_port) in
  Ok (zip_total df_rtn
                (total_return (map rtn_index df_rtn))
                (total_return (map rtn_portfolio df_rtn))).

(** * The statements of the specification *)

(** ** The benchmark weight *)

(** The weight every stock receives in a universe of [p] stocks. *)
Definition one_over (p : nat) : cell :=
  Some (1 / inject_Z (Z.of_nat p))%Q.

(** ** The optimisation problem of the specification *)

(** The objective [f(w) = (w . mu) / (0.5 * (100 * sqrt(w' Sigma w))^3)]. *)
Definition spec_objective (np_sqrt : cell -> cell) (w mu : list cell)
           (sigma : list (list cell)) : cell :=
  fdiv (np_dot w mu)
       (fmul (num (1 # 2))
             (fcube (fmul (num 100) (np_sqrt (np_dot w (np_matvec sigma w)))))).

(** What SLSQP requires of a point: a constraint of type [eq] has its
    function equal to zero there, one of type [ineq] has it non-negative, and
    every coordinate lies within its bounds. *)
Definition feq0 (v : cell) : bool :=
  match v with
  | Some q => Qeq_bool q 0
  | None => false
  end.

Definition fge0 (v : cell) : bool :=
  match v with
  | Some q => Qle_bool 0 q
  | None => false
  end.

Definition satisfies (c : Constraint) (w : list cell) : bool :=
  forallb (match c_type c with
           | eq_constraint => feq0
           | ineq_constraint => fge0
           end) (c_fun c w).

Fixpoint within_bounds (b : list (Q * Q)) (w : list cell) : bool :=
  match b, w with
  | [], [] => true
  | (lo, hi) :: b', Some q :: w' =>
      Qle_bool lo q && Qle_bool q hi && within_bounds b' w'
  | _, _ => false
  end.

(** The feasible set the code hands to the solver for [num_stocks] stocks. *)
Definition feasible (num_stocks : nat) (w : list cell) : bool :=
  within_bounds (bounds_of num_stocks) w
  && forallb (fun c => satisfies c w) constraints.

(** The feasible set of the specification: the weights sum to 1, each lies in
    [0, 1] and each is at most 0.10. *)
Definition spec_feasible (w : list Q) : Prop :=
  (Qsum w == 1)%Q /\
  Forall (fun wi => (0 <= wi)%Q /\ (wi <= 1)%Q /\ (wi <= 1 # 10)%Q) w.

(** ** The estimates of the specification *)

(** The arithmetic mean of a series: the sum of its cells over their number. *)
Definition spec_mean (s : list cell) : cell :=
  fdiv (np_sum s) (num (Qcount s)).

(** The unbiased sample covariance of two series of [n] cells: the sum of the
    products of the deviations from the two means, over [n - 1]; undefined
    (NaN) for fewer than two rows. *)
Definition spec_cov (s t : list cell) : cell :=
  let ms := spec_mean s in
  let mt := spec_mean t in
  if length s <? 2 then NaN
  else fdiv (np_sum (zip_with (fun u v => fmul (fsub u ms) (fsub v mt)) s t))
            (num (Qcount s - 1)%Q).

(** The estimate as the specification words it, over all the rows dated
    before [d]. *)
Definition spec_estimate (df_returns : DataFrame) (d : date)
  : list cell * list (list cell) :=
  let df_latest := select_before df_returns d in
  let p := length (columns df_latest) in
  (map (fun j => spec_mean (column j df_latest)) (seq 0 p),
   map (fun i => map (fun j => spec_cov (column i df_latest)
                                        (column j df_latest)) (seq 0 p))
       (seq 0 p)).

(** The series restricted to the observations the code keeps. *)
Definition observed (s : list cell) : list cell := map Some (dropna s).

Definition observed_fst (s t : list cell) : list cell :=
  map (fun p => Some (fst p)) (pairwise_complete s t).

Definition observed_snd (s t : list cell) : list cell :=
  map (fun p => Some (snd p)) (pairwise_complete s t).

(** A frame without a missing cell: every row holds one number per stock. *)
Definition complete_row (p : nat) (r : Row) : Prop :=
  exists qs : list Q, values r = map Some qs /\ length qs = p.

Definition complete (df : DataFrame) : Prop :=
  Forall (complete_row (length (columns df))) (rows df).

(** ** The total-return series of the specification *)

Definition number_of (c : cell) : Q :=
  match c with
  | Some q => q
  | None => 0%Q
  end.

(** The realised return of one period: the sum over the assets of weight
    times return, a missing return counting as 0. *)
Definition spec_period_return (w r : list cell) : Q :=
  Qsum (map (fun j => (number_of (nth j w NaN) * number_of (nth j r NaN))%Q)
            (seq 0 (length r))).

(** The cumulative index at period [t]: [100 * prod_{k <= t} (1 + r_k)]. *)
Definition spec_cumulative (r : list Q) (t : nat) : Q :=
  (100 * Qprod (map (fun k => 1 + nth k r 0) (seq 0 (S t))))%Q.

Definition is_number (c : cell) : Prop := exists q : Q, c = Some q.

(** A weights frame laid over a return frame: as many rows, each as wide as
    the return row it meets, every weight a number. *)
Definition weights_over (df_returns : DataFrame) (w : WeightFrame) : Prop :=
  Forall2 (fun wr r => length (w_values wr) = length (values r) /\
                       Forall is_number (w_values wr))
          (w_rows w) (rows df_returns).

(** ** The weight schedule *)

(** Some weight of the schedule, over the stock columns, is above 0.101. *)
Definition some_weight_exceeds (w : WeightFrame) : Prop :=
  exists (wr : WRow) (q : Q),
    In wr (w_rows w) /\ In (Some q) (w_values wr) /\ (limit < q)%Q.

(** The row the loop appends for the test row [r]. *)
Definition optimized_row (np_sqrt : cell -> cell) (minimize : solver)
           (df_returns : DataFrame) (list_stocks : list string) (r : Row)
  : WRow :=
  {| w_index := None;
     w_month_end := Some (month_end r);
     w_values := OptimizeResult.x
                   (solve_period np_sqrt minimize df_returns list_stocks
                                 (month_end r)) |}.

(** The solver returned one weight per stock for the test row [r]. *)
Definition well_shaped (np_sqrt : cell -> cell) (minimize : solver)
           (df_returns : DataFrame) (list_stocks : list string) (r : Row)
  : Prop :=
  length (w_values (optimized_row np_sqrt minimize df_returns list_stocks r))
  = length list_stocks.

(** The rows of the schedule once the loop has run over [test_rows], given
    that every period's result was well shaped. *)
Definition rows_after (np_sqrt : cell -> cell) (minimize : solver)
           (df_returns : DataFrame) (list_stocks : list string)
           (w : WeightFrame) (test_rows : list Row) : list WRow :=
  match test_rows with
  | [] => w_rows w
  | _ :: _ =>
      map drop_index (w_rows w)
      ++ map (optimized_row np_sqrt minimize df_returns list_stocks) test_rows
  end.

(** The equal-weight frame of the training rows, as [equalise_weights]
    builds it for [p >= 1] stocks. *)
Definition training_weights (df_train : DataFrame) : WeightFrame :=
  let p := length (columns df_train) in
  {| w_columns := columns df_train;
     w_rows := map (fun r => {| w_index := Some (month_end r);
                                w_month_end := None;
                                w_values := repeat (one_over p) p |})
                   (rows df_train) |}.

(** The schedule [generate_portfolio] builds when every period's result is
    well shaped. *)
Definition schedule (np_sqrt : cell -> cell) (minimize : solver)
           (df_train df_test : DataFrame) : WeightFrame :=
  {| w_columns := columns df_train;
     w_rows := rows_after np_sqrt minimize (concat_returns df_train df_test)
                          (columns df_train) (training_weights df_train)
                          (rows df_test) |}.

(** The walk-forward precondition on the dates: strictly increasing within
    each frame, and every training date before every test date. *)
Fixpoint increasing (l : list date) : bool :=
  match l with
  | [] => true
  | d :: l' => match l' with
               | [] => true
               | d' :: _ => (d <? d')%Z && increasing l'
               end
  end.

Definition walk_forward_ordered (df_train df_test : DataFrame) : bool :=
  increasing (map month_end (rows df_train) ++ map month_end (rows df_test)).

(** Two solvers that return the same point for the same call, whatever they
    report about convergence. *)
Definition same_points (m1 m2 : solver) : Prop :=
  forall f x0 b c,
    OptimizeResult.x (m1 f x0 b c) = OptimizeResult.x (m2 f x0 b c).

(** Two return frames that agree on the rows dated before [d]. *)
Definition agree_before (d : date) (a b : DataFrame) : Prop :=
  columns a = columns b /\
  filter (fun r => (month_end r <? d)%Z) (rows a) =
  filter (fun r => (month_end r <? d)%Z) (rows b).

(** The date and the two realised returns of a row of [df_rtn]. *)
Definition period_of (r : TotalReturnRow) : RtnRow :=
  mkRtn (tr_month_end r) (index r) (portfolio r).

(** One row per period of the return frame, in frame order: its date and the
    realised return of each strategy. *)
Definition spec_period_rows (df_returns : DataFrame)
           (w_index w_portfolio : WeightFrame) : list RtnRow :=
  zip_rows (map month_end (rows df_returns))
           (zip_with (fun w r => Some (spec_period_return (w_values w) (values r)))
                     (w_rows w_index) (rows df_returns))
           (zip_with (fun w r => Some (spec_period_return (w_values w) (values r)))
                     (w_rows w_portfolio) (rows df_returns)).

Definition index_returns (out : list TotalReturnRow) : list Q :=
  map (fun r => number_of (index r)) out.

Definition portfolio_returns (out : list TotalReturnRow) : list Q :=
  map (fun r => number_of (portfolio r)) out.

(** Ascending order of the rows by date. *)
Definition date_le (a b : RtnRow) : Prop :=
  (rtn_month_end a <= rtn_month_end b)%Z.

(** ** Vectors of numbers *)

Definition Qdot (a b : list Q) : Q := Qsum (zip_with Qmult a b).

(** The expected returns [1, 0, ..., 0] over [S k] stocks, and the
    covariance matrix of [n] stocks whose every entry is 1. *)
Definition mu_first (k : nat) : list cell := Some 1%Q :: repeat (Some 0%Q) k.

Definition cov_ones (n : nat) : list (list cell) :=
  repeat (repeat (Some 1%Q) n) n.

(** * Concrete frames and solvers *)

Open Scope string_scope.

Definition ten_stocks : list string :=
  ["S01"; "S02"; "S03"; "S04"; "S05"; "S06"; "S07"; "S08"; "S09"; "S10"].

Definition three_stocks : list string := ["A"; "B"; "C"].

(** A solver that stops at its start point and reports that it did not
    converge. *)
Definition stalled_solver : solver :=
  fun _ x0 _ _ => {| OptimizeResult.x := x0; OptimizeResult.success := false |}.

(** The same result, reported as converged. *)
Definition settled_solver : solver :=
  fun _ x0 _ _ => {| OptimizeResult.x := x0; OptimizeResult.success := true |}.

(** A square root that is exact on the squares of rationals (floor of the
    integer roots elsewhere) and NaN on negative numbers. *)
Definition rational_sqrt (c : cell) : cell :=
  match c with
  | Some q => if Qle_bool 0 q
              then Some (Qmake (Z.sqrt (Qnum (Qred q))) (Pos.sqrt (Qden (Qred q))))
              else None
  | None => None
  end.

(** Three stocks over three months, one cell missing. *)
Definition small_returns : DataFrame :=
  {| columns := three_stocks;
     rows := [ mkRow 31 [Some (1 # 100); Some (2 # 100); None];
               mkRow 59 [Some (3 # 100); Some (-1 # 100); Some (1 # 100)];
               mkRow 90 [Some (-2 # 100); Some (2 # 100); Some (4 # 100)] ] |}.

(** A solver that puts the whole portfolio into the first stock. *)
Definition greedy_solver : solver :=
  fun _ x0 _ _ =>
    {| OptimizeResult.x :=
         match x0 with
         | [] => []
         | _ :: rest => Some 1%Q :: map (fun _ => Some 0%Q) rest
         end;
       OptimizeResult.success := true |}.

(** Ten stocks: the returns of one month, in percent. *)
Definition month (d : date) (percent : list Z) : Row :=
  mkRow d (map (fun k => Some (k # 100)) percent).
Arguments month d%_Z percent%_list.

Definition train_two : DataFrame :=
  {| columns := ten_stocks;
     rows := [ month 31 [1; 2; 3; 4; 5; 6; 7; 8; 9; 10]%Z;
               month 59 [2; 1; 0; -1; 3; 5; 2; -4; 1; 7]%Z ] |}.

Definition test_two : DataFrame :=
  {| columns := ten_stocks;
     rows := [ month 90 [0; 1; 1; 2; -3; 5; 8; 1; 2; 1]%Z;
               month 120 [4; -2; 1; 0; 3; 3; 1; 6; -1; 2]%Z ] |}.

(** One training month only: the first test period has a single row of
    history. *)
Definition train_one : DataFrame :=
  {| columns := ten_stocks;
     rows := [ month 31 [1; 2; 3; 4; 5; 6; 7; 8; 9; 10]%Z ] |}.

(** Training dates out of order, and test dates that fall inside the
    training range and repeat. *)
Definition train_unordered : DataFrame :=
  {| columns := ten_stocks;
     rows := [ month 90 [1; 2; 3; 4; 5; 6; 7; 8; 9; 10]%Z;
               month 31 [2; 1; 0; -1; 3; 5; 2; -4; 1; 7]%Z ] |}.

Definition test_overlapping : DataFrame :=
  {| columns := ten_stocks;
     rows := [ month 59 [0; 1; 1; 2; -3; 5; 8; 1; 2; 1]%Z;
               month 59 [4; -2; 1; 0; 3; 3; 1; 6; -1; 2]%Z ] |}.

(** [train_two] followed by [test_two], and the same frame with every row
    from day 90 on rewritten and a further row added. *)
Definition returns_seen : DataFrame := concat_returns train_two test_two.

Definition returns_mutated : DataFrame :=
  {| columns := ten_stocks;
     rows := [ month 31 [1; 2; 3; 4; 5; 6; 7; 8; 9; 10]%Z;
               month 59 [2; 1; 0; -1; 3; 5; 2; -4; 1; 7]%Z;
               month 90 [9; 9; 9; 9; 9; 9; 9; 9; 9; 9]%Z;
               month 151 [-5; -5; -5; -5; -5; -5; -5; -5; -5; -5]%Z;
               month 181 [1; 1; 1; 1; 1; 1; 1; 1; 1; 1]%Z ] |}.

(** Equal weights and a tilted portfolio over [small_returns]; the first
    month of the portfolio nets to a zero return. *)
Definition small_index_weights : WeightFrame :=
  {| w_columns := three_stocks;
     w_rows := [ mkWRow (Some 31%Z) None [Some (1 # 3); Some (1 # 3); Some (1 # 3)];
                 mkWRow (Some 59%Z) None [Some (1 # 3); Some (1 # 3); Some (1 # 3)];
                 mkWRow (Some 90%Z) None [Some (1 # 3); Some (1 # 3); Some (1 # 3)] ] |}.

Definition small_portfolio_weights : WeightFrame :=
  {| w_columns := three_stocks;
     w_rows := [ mkWRow None None [Some 0%Q; Some 0%Q; Some 1%Q];
                 mkWRow None (Some 59%Z) [Some (1 # 2); Some (1 # 4); Some (1 # 4)];
                 mkWRow None (Some 90%Z) [Some (1 # 10); Some (1 # 2); Some (2 # 5)] ] |}.

(** Eleven stocks driven by one common factor: every stock moves by -1, 0
    and +1 around its mean over the three training months; the first stock
    has mean return 1 and the others mean return 0. *)
Definition eleven_stocks : list string :=
  ["S01"; "S02"; "S03"; "S04"; "S05"; "S06"; "S07"; "S08"; "S09"; "S10"; "S11"].

Definition factor_row (d : date) (first rest : Q) : Row :=
  mkRow d (Some first :: repeat (Some rest) 10).
Arguments factor_row d%_Z first%_Q rest%_Q.

Definition train_factor : DataFrame :=
  {| columns := eleven_stocks;
     rows := [ factor_row 31 0 (-1); factor_row 59 1 0; factor_row 90 2 1 ] |}.

Definition test_factor : DataFrame :=
  {| columns := eleven_stocks; rows := [ factor_row 120 1 0 ] |}.

(** Two feasible portfolios over the eleven stocks: nothing in the first
    stock, and the first stock at its 10% cap. *)
Definition w_low : list cell := Some 0%Q :: repeat (Some (1 # 10)) 10.

Definition w_high : list cell := Some (1 # 10) :: repeat (Some (9 # 100)) 10.

(** * The script as a whole *)

(** The last cell of the script, from the two frames read from storage to
    the frame of total returns: the benchmark weights over the combined
    frame, the portfolio weights, and the two indices. *)
Definition run_solution (np_sqrt : cell -> cell) (minimize : solver)
           (df_returns_train df_returns_test : DataFrame)
  : result (list TotalReturnRow) :=
  let df_returns := concat_returns df_returns_train df_returns_test in
  df_weights_index <- equalise_weights df_returns ;;
  r <- generate_portfolio np_sqrt minimize df_returns_train df_returns_test ;;
  plot_total_return (fst r) df_weights_index (snd r).

(** A frame whose every row holds one cell per stock column. *)
Definition rectangular (df : DataFrame) : Prop :=
  Forall (fun r => length (values r) = length (columns df)) (rows df).

(** A weight that passes the 10% limit check: NaN, or a number that is at
    most 0.101. *)
Definition within_limit (c : cell) : Prop :=
  match c with
  | Some q => (q <= limit)%Q
  | None => True
  end.

(** A solver that returns NaN for every stock. *)
Definition nan_solver : solver :=
  fun _ x0 _ _ =>
    {| OptimizeResult.x := map (fun _ => NaN) x0;
       OptimizeResult.success := false |}.

(** Three stocks: one test month after [small_returns]. *)
Definition small_test : DataFrame :=
  {| columns := three_stocks;
     rows := [ mkRow 120 [Some (1 # 100); None; Some (2 # 100)] ] |}.

(** A test frame without a row. *)
Definition no_test : DataFrame := {| columns := ten_stocks; rows := [] |}.

(** A solver that probes the objective at the start point and returns the
    value it finds, once per stock. *)
Definition probing_solver : solver :=
  fun f x0 _ _ =>
    {| OptimizeResult.x := map (fun _ => f x0) x0;
       OptimizeResult.success := true |}.

Close Scope string_scope.

(** * Properties *)

(** ** Cells and results *)

Lemma bind_Ok {A B : Type} (r : result A) (k : A -> result B) (b : B) :
  bind r k = Ok b -> exists a, r = Ok a /\ k a = Ok b.
Proof.
  destruct r as [a | e]; simpl; intros H; [ | discriminate H ].
  exists a. split; [ reflexivity | exact H ].
Qed.

Lemma map_const_repeat {A B : Type} (b : B) (l : list A) :
  map (fun _ => b) l = repeat b (length l).
Proof.
  induction l as [ | a l IH ]; simpl; [ reflexivity | now rewrite IH ].
Qed.

(** ** The benchmark weight generator *)

Lemma equalise_weights_eq (df : DataFrame) :
  1 <= length (columns df) ->
  equalise_weights df =
  Ok {| w_columns := columns df;
        w_rows := map (fun r => {| w_index := Some (month_end r);
                                   w_month_end := None;
                                   w_values := repeat (one_over (length (columns df)))
                                                      (length (columns df)) |})
                      (rows df) |}.
Proof.
  intros Hp. unfold equalise_weights.
  destruct (length (columns df)) as [ | p' ] eqn:Ep; [ lia | ].
  simpl py_truediv. simpl bind. rewrite firstn_all.
  rewrite map_const_repeat, Ep. reflexivity.
Qed.

(** C5.  For every return frame with [p >= 1] stock columns,
    [equalise_weights] returns a weights frame over the same stock columns
    with one row per period, labelled by that period's date, in which every
    stock of every period holds exactly [1/p]; the cells of the input,
    present or missing, play no part. *)
Theorem equalise_weights_uniform (df : DataFrame) :
  1 <= length (columns df) ->
  exists w : WeightFrame,
    equalise_weights df = Ok w /\
    w_columns w = columns df /\
    map w_index (w_rows w) = map (fun r => Some (month_end r)) (rows df) /\
    Forall (fun wr => w_values wr = repeat (one_over (length (columns df)))
                                           (length (columns df)))
           (w_rows w).
Proof.
  intros Hp. eexists. split; [ apply equalise_weights_eq; exact Hp | ].
  simpl. split; [ reflexivity | ]. split.
  - rewrite map_map. reflexivity.
  - apply Forall_forall. intros wr Hin.
    apply in_map_iff in Hin. destruct Hin as [r [Hr _]]. subst wr. reflexivity.
Qed.

Lemma equalise_weights_uniform_witness :
  exists w : WeightFrame,
    equalise_weights small_returns = Ok w /\
    w_columns w = three_stocks /\
    map w_index (w_rows w) = [Some 31%Z; Some 59%Z; Some 90%Z] /\
    Forall (fun wr => w_values wr = [Some (1 # 3); Some (1 # 3); Some (1 # 3)])
           (w_rows w).
Proof.
  apply (equalise_weights_uniform small_returns). simpl. lia.
Defined.

(** ** The per-period loop *)

Section Loop.

Variable np_sqrt : cell -> cell.
Variable minimize : solver.
Variable df_returns : DataFrame.
Variable list_stocks : list string.

Local Abbreviation new_row :=
  (optimized_row np_sqrt minimize df_returns list_stocks).
Local Abbreviation shaped :=
  (well_shaped np_sqrt minimize df_returns list_stocks).

Lemma drop_index_idem (r : WRow) : drop_index (drop_index r) = drop_index r.
Proof. reflexivity. Qed.

Lemma period_step_Ok (d : Row) (w : WeightFrame) :
  shaped d ->
  period_step np_sqrt minimize df_returns list_stocks (month_end d) w =
  Ok {| w_columns := w_columns w;
        w_rows := map drop_index (w_rows w) ++ [new_row d] |}.
Proof.
  unfold shaped, well_shaped, period_step, frame_of_row. simpl. intros H.
  rewrite H, Nat.eqb_refl. reflexivity.
Qed.

Lemma period_step_Raise (d : Row) (w : WeightFrame) :
  ~ shaped d ->
  period_step np_sqrt minimize df_returns list_stocks (month_end d) w =
  Raise ValueError.
Proof.
  unfold shaped, well_shaped, period_step, frame_of_row. simpl. intros H.
  apply Nat.eqb_neq in H. rewrite H. reflexivity.
Qed.

Lemma period_loop_Ok (test_rows : list Row) :
  forall w : WeightFrame,
    Forall shaped test_rows ->
    period_loop np_sqrt minimize df_returns list_stocks test_rows w =
    Ok {| w_columns := w_columns w; w_rows := rows_after np_sqrt minimize df_returns list_stocks w test_rows |}.
Proof.
  induction test_rows as [ | d rest IH ]; intros w Hall.
  - destruct w; reflexivity.
  - inversion Hall as [ | ? ? Hd Hrest ]; subst.
    cbn [period_loop]. rewrite (period_step_Ok d w Hd). cbn [bind].
    rewrite (IH _ Hrest). cbn [w_columns]. f_equal. f_equal.
    destruct rest as [ | d' rest' ]; cbn [rows_after w_rows].
    + reflexivity.
    + rewrite map_app, map_map. cbn [map].
      rewrite <- app_assoc. reflexivity.
Qed.

Lemma period_loop_Raise (test_rows : list Row) :
  forall w : WeightFrame,
    ~ Forall shaped test_rows ->
    period_loop np_sqrt minimize df_returns list_stocks test_rows w =
    Raise ValueError.
Proof.
  induction test_rows as [ | d rest IH ]; intros w Hnot.
  - exfalso. apply Hnot. constructor.
  - cbn [period_loop].
    destruct (Nat.eq_dec (length (w_values (new_row d))) (length list_stocks))
      as [Hd | Hd].
    + rewrite (period_step_Ok d w Hd). cbn [bind]. apply IH.
      intros Hrest. apply Hnot. constructor; assumption.
    + rewrite (period_step_Raise d w Hd). reflexivity.
Qed.

Lemma rows_after_values (w : WeightFrame) (test_rows : list Row) :
  map w_values (rows_after np_sqrt minimize df_returns list_stocks w test_rows) =
  map w_values (w_rows w) ++ map (fun r => w_values (new_row r)) test_rows.
Proof.
  destruct test_rows as [ | d rest ]; cbn [rows_after].
  - cbn [map]. now rewrite app_nil_r.
  - rewrite map_app, !map_map. reflexivity.
Qed.

End Loop.

(** ** [generate_portfolio] up to the limit check *)

Section Build.

Variable np_sqrt : cell -> cell.
Variable minimize : solver.
Variables df_train df_test : DataFrame.

Local Abbreviation df_returns := (concat_returns df_train df_test).
Local Abbreviation list_stocks := (columns df_train).
Local Abbreviation shaped :=
  (well_shaped np_sqrt minimize df_returns list_stocks).

Lemma head_rows_concat :
  head_rows df_returns (length (rows df_train)) =
  {| columns := columns df_train; rows := rows df_train |}.
Proof.
  unfold head_rows, df_returns, concat_returns. cbn [columns rows].
  rewrite firstn_app, Nat.sub_diag, firstn_O, app_nil_r, firstn_all.
  reflexivity.
Qed.

Lemma shaped_dec : {Forall shaped (rows df_test)} + {~ Forall shaped (rows df_test)}.
Proof.
  apply Forall_dec. intros r. unfold shaped, well_shaped. apply Nat.eq_dec.
Qed.

Lemma build_weights_no_stock :
  length (columns df_train) = 0 ->
  build_weights np_sqrt minimize df_train df_test = Raise ZeroDivisionError.
Proof.
  intros Hp. unfold build_weights. fold df_returns.
  rewrite head_rows_concat. unfold equalise_weights. cbn [columns rows].
  rewrite Hp. reflexivity.
Qed.

Lemma build_weights_Ok :
  1 <= length (columns df_train) ->
  Forall shaped (rows df_test) ->
  build_weights np_sqrt minimize df_train df_test =
  Ok (df_returns,
      {| w_columns := columns df_train;
         w_rows := rows_after np_sqrt minimize df_returns list_stocks
                              (training_weights df_train) (rows df_test) |}).
Proof.
  intros Hp Hall. unfold build_weights. fold df_returns.
  rewrite head_rows_concat, equalise_weights_eq by exact Hp.
  cbn [bind columns rows].
  change (columns df_returns) with list_stocks.
  fold (training_weights df_train).
  rewrite (period_loop_Ok np_sqrt minimize df_returns list_stocks
                          (rows df_test) (training_weights df_train) Hall).
  reflexivity.
Qed.

Lemma build_weights_ill_shaped :
  1 <= length (columns df_train) ->
  ~ Forall shaped (rows df_test) ->
  build_weights np_sqrt minimize df_train df_test = Raise ValueError.
Proof.
  intros Hp Hnot. unfold build_weights. fold df_returns.
  rewrite head_rows_concat, equalise_weights_eq by exact Hp.
  cbn [bind columns rows].
  change (columns df_returns) with list_stocks.
  rewrite (period_loop_Raise np_sqrt minimize df_returns list_stocks
                             (rows df_test) _ Hnot).
  reflexivity.
Qed.

Lemma build_weights_inv (r : DataFrame) (w : WeightFrame) :
  build_weights np_sqrt minimize df_train df_test = Ok (r, w) ->
  1 <= length (columns df_train) /\
  Forall shaped (rows df_test) /\
  r = df_returns /\
  w = {| w_columns := columns df_train;
         w_rows := rows_after np_sqrt minimize df_returns list_stocks
                              (training_weights df_train) (rows df_test) |}.
Proof.
  intros H.
  destruct (Nat.eq_dec (length (columns df_train)) 0) as [Hp | Hp].
  - rewrite (build_weights_no_stock Hp) in H. discriminate H.
  - assert (Hp' : 1 <= length (columns df_train)) by lia.
    destruct shaped_dec as [Hall | Hnot].
    + rewrite (build_weights_Ok Hp' Hall) in H. inversion H. auto.
    + rewrite (build_weights_ill_shaped Hp' Hnot) in H. discriminate H.
Qed.

Lemma build_weights_never_limit (e : exn) :
  build_weights np_sqrt minimize df_train df_test = Raise e ->
  e = ZeroDivisionError \/ e = ValueError.
Proof.
  intros H.
  destruct (Nat.eq_dec (length (columns df_train)) 0) as [Hp | Hp].
  - rewrite (build_weights_no_stock Hp) in H. inversion H. auto.
  - assert (Hp' : 1 <= length (columns df_train)) by lia.
    destruct shaped_dec as [Hall | Hnot].
    + rewrite (build_weights_Ok Hp' Hall) in H. discriminate H.
    + rewrite (build_weights_ill_shaped Hp' Hnot) in H. inversion H. auto.
Qed.

Lemma training_weights_values :
  map w_values (w_rows (training_weights df_train)) =
  repeat (repeat (one_over (length (columns df_train)))
                 (length (columns df_train)))
         (length (rows df_train)).
Proof.
  unfold training_weights. cbn [w_rows]. rewrite map_map. cbn [w_values].
  apply map_const_repeat.
Qed.

Lemma generate_portfolio_Ok_inv (r : DataFrame) (w : WeightFrame) :
  generate_portfolio np_sqrt minimize df_train df_test = Ok (r, w) ->
  build_weights np_sqrt minimize df_train df_test = Ok (r, w) /\
  limit_exceeded w = false.
Proof.
  unfold generate_portfolio. intros H.
  apply bind_Ok in H. destruct H as [[r' w'] [Hb Hc]].
  unfold limit_check in Hc. cbn [snd] in Hc.
  destruct (limit_exceeded w') eqn:E; [ discriminate Hc | ].
  inversion Hc; subst. auto.
Qed.

End Build.

Lemma rows_after_length (np_sqrt : cell -> cell) (minimize : solver)
      (df_returns : DataFrame) (list_stocks : list string)
      (w : WeightFrame) (test_rows : list Row) :
  length (rows_after np_sqrt minimize df_returns list_stocks w test_rows) =
  length (w_rows w) + length test_rows.
Proof.
  destruct test_rows as [ | d rest ]; cbn [rows_after].
  - cbn [length]. lia.
  - rewrite length_app, !length_map. reflexivity.
Qed.

(** C10.  A schedule returned by [generate_portfolio] has one row per
    training row followed by one row per test row: the training rows hold
    [1/p] in each of the [p] stock columns, and the row of the i-th test
    period holds the solver's result for that period and carries that
    period's date, in the order of the test frame. *)
Theorem weight_schedule_layout (np_sqrt : cell -> cell) (minimize : solver)
        (df_train df_test r : DataFrame) (w : WeightFrame) :
  generate_portfolio np_sqrt minimize df_train df_test = Ok (r, w) ->
  let p := length (columns df_train) in
  let n_train := length (rows df_train) in
  let df_returns := concat_returns df_train df_test in
  length (w_rows w) = n_train + length (rows df_test) /\
  map w_values (w_rows w) =
    repeat (repeat (one_over p) p) n_train
    ++ map (fun t => OptimizeResult.x
                       (solve_period np_sqrt minimize df_returns
                                     (columns df_train) (month_end t)))
           (rows df_test) /\
  map w_month_end (skipn n_train (w_rows w)) =
    map (fun t => Some (month_end t)) (rows df_test).
Proof.
  intros H p n_train df_returns.
  apply generate_portfolio_Ok_inv in H. destruct H as [Hb _].
  apply build_weights_inv in Hb. destruct Hb as [_ [_ [_ Hw]]]. subst w.
  cbn [w_rows]. split; [ | split ].
  - rewrite rows_after_length. unfold training_weights. cbn [w_rows].
    rewrite length_map. reflexivity.
  - rewrite rows_after_values, training_weights_values. reflexivity.
  - unfold n_train. destruct (rows df_test) as [ | t rest ] eqn:Et.
    + cbn [rows_after map]. unfold training_weights. cbn [w_rows].
      rewrite skipn_all2; [ reflexivity | rewrite length_map; lia ].
    + cbn [rows_after]. unfold training_weights at 1. cbn [w_rows].
      rewrite skipn_app, !length_map, Nat.sub_diag.
      rewrite skipn_all2 by (rewrite !length_map; lia).
      cbn [skipn app]. rewrite map_map. reflexivity.
Qed.

Lemma weight_schedule_layout_witness :
  exists (r : DataFrame) (w : WeightFrame),
    generate_portfolio rational_sqrt settled_solver train_two test_two
    = Ok (r, w) /\
    length (w_rows w) = 2 + 2 /\
    map w_values (w_rows w) =
      repeat (repeat (one_over 10) 10) 2
      ++ map (fun t => OptimizeResult.x
                         (solve_period rational_sqrt settled_solver
                                       (concat_returns train_two test_two)
                                       ten_stocks (month_end t)))
             (rows test_two) /\
    map w_month_end (skipn 2 (w_rows w)) = [Some 90%Z; Some 120%Z].
Proof.
  eexists. eexists. split.
  - vm_compute. reflexivity.
  - eapply (weight_schedule_layout rational_sqrt settled_solver
                                   train_two test_two).
    vm_compute. reflexivity.
Defined.

(** ** The 10% limit check *)

Lemma fgt_limit (c : cell) :
  fgt c limit = true <-> exists q : Q, c = Some q /\ (limit < q)%Q.
Proof.
  destruct c as [q | ]; simpl.
  - unfold Qlt_bool. rewrite negb_true_iff. split.
    + intros H. exists q. split; [ reflexivity | ].
      apply Qnot_le_lt. intros Hle. apply Qle_bool_iff in Hle. congruence.
    + intros [q' [Hq Hlt]]. inversion Hq; subst q'.
      destruct (Qle_bool q limit) eqn:E; [ | reflexivity ].
      apply Qle_bool_iff in E. exfalso. exact (Qlt_not_le _ _ Hlt E).
  - split; [ discriminate | intros [q [Hq _]]; discriminate Hq ].
Qed.

Lemma limit_exceeded_iff (w : WeightFrame) :
  limit_exceeded w = true <-> some_weight_exceeds w.
Proof.
  unfold limit_exceeded, some_weight_exceeds. rewrite existsb_exists. split.
  - intros [wr [Hin Hex]]. apply existsb_exists in Hex.
    destruct Hex as [c [Hc Hgt]]. apply fgt_limit in Hgt.
    destruct Hgt as [q [Hq Hlt]]. subst c. exists wr, q. auto.
  - intros [wr [q [Hin [Hq Hlt]]]]. exists wr. split; [ exact Hin | ].
    apply existsb_exists. exists (Some q). split; [ exact Hq | ].
    apply fgt_limit. exists q. auto.
Qed.

(** C3.  Whatever the frames and the solver: when the loop has solved every
    period and built the schedule [w] (one row per training and per test
    row), [generate_portfolio] raises the limit exception if and only if
    some weight of some row of [w] exceeds 0.101, and returns the frames
    unchanged otherwise; when the loop itself fails, the failure is passed
    on and is never the limit exception, so the limit is tested once, on the
    finished schedule. *)
Theorem limit_check_global (np_sqrt : cell -> cell) (minimize : solver)
        (df_train df_test : DataFrame) :
  match build_weights np_sqrt minimize df_train df_test with
  | Ok (r, w) =>
      length (w_rows w) = length (rows df_train) + length (rows df_test) /\
      (generate_portfolio np_sqrt minimize df_train df_test
       = Raise (Exception limit_message) <-> some_weight_exceeds w) /\
      (~ some_weight_exceeds w ->
       generate_portfolio np_sqrt minimize df_train df_test = Ok (r, w))
  | Raise e =>
      generate_portfolio np_sqrt minimize df_train df_test = Raise e /\
      e <> Exception limit_message
  end.
Proof.
  destruct (build_weights np_sqrt minimize df_train df_test)
    as [[r w] | e] eqn:Hb.
  - split; [ | split ].
    + apply build_weights_inv in Hb. destruct Hb as [_ [_ [_ Hw]]]. subst w.
      cbn [w_rows]. rewrite rows_after_length. unfold training_weights.
      cbn [w_rows]. rewrite length_map. reflexivity.
    + unfold generate_portfolio. rewrite Hb. cbn [bind].
      unfold limit_check. cbn [snd]. rewrite <- limit_exceeded_iff.
      destruct (limit_exceeded w); split; congruence.
    + intros Hnone. unfold generate_portfolio. rewrite Hb. cbn [bind].
      unfold limit_check. cbn [snd].
      destruct (limit_exceeded w) eqn:E; [ | reflexivity ].
      exfalso. apply Hnone. apply limit_exceeded_iff. exact E.
  - split.
    + unfold generate_portfolio. rewrite Hb. reflexivity.
    + apply build_weights_never_limit in Hb.
      destruct Hb as [He | He]; subst e; discriminate.
Qed.

(** A first period that breaks the limit does not stop the loop: the second
    period is solved too, and the run fails on the finished schedule. *)
Example limit_checked_after_loop :
  (exists (r : DataFrame) (w : WeightFrame),
      build_weights rational_sqrt greedy_solver train_two test_two = Ok (r, w)
      /\ length (w_rows w) = 4) /\
  generate_portfolio rational_sqrt greedy_solver train_two test_two
  = Raise (Exception limit_message).
Proof.
  split.
  - eexists. eexists. split; vm_compute; reflexivity.
  - vm_compute. reflexivity.
Qed.

(** ** Failures that are not raised *)

Section SamePoints.

Variable np_sqrt : cell -> cell.
Variables m1 m2 : solver.
Hypothesis Hsame : same_points m1 m2.

Lemma period_step_same_points (df_returns : DataFrame)
      (list_stocks : list string) (d : date) (w : WeightFrame) :
  period_step np_sqrt m1 df_returns list_stocks d w =
  period_step np_sqrt m2 df_returns list_stocks d w.
Proof.
  unfold period_step, solve_period. rewrite Hsame. reflexivity.
Qed.

Lemma period_loop_same_points (df_returns : DataFrame)
      (list_stocks : list string) (test_rows : list Row) :
  forall w : WeightFrame,
    period_loop np_sqrt m1 df_returns list_stocks test_rows w =
    period_loop np_sqrt m2 df_returns list_stocks test_rows w.
Proof.
  induction test_rows as [ | t rest IH ]; intros w; cbn [period_loop].
  - reflexivity.
  - rewrite period_step_same_points.
    destruct (period_step np_sqrt m2 df_returns list_stocks (month_end t) w)
      as [w' | e]; cbn [bind]; [ apply IH | reflexivity ].
Qed.

End SamePoints.

(** C7, as the code has it.  [generate_portfolio] never reads the solver's
    convergence report: two solvers that return the same points, one
    reporting convergence and the other not, give the same outcome, so a
    point the solver did not converge to is appended to the schedule like
    any other and no failure is raised for the period. *)
Theorem convergence_flag_ignored (np_sqrt : cell -> cell) (m1 m2 : solver)
        (df_train df_test : DataFrame) :
  same_points m1 m2 ->
  generate_portfolio np_sqrt m1 df_train df_test =
  generate_portfolio np_sqrt m2 df_train df_test.
Proof.
  intros Hsame. unfold generate_portfolio, build_weights.
  destruct (equalise_weights
              (head_rows (concat_returns df_train df_test)
                         (length (rows df_train)))) as [w0 | e];
    cbn [bind]; [ | reflexivity ].
  rewrite (period_loop_same_points np_sqrt m1 m2 Hsame). reflexivity.
Qed.

Lemma convergence_flag_ignored_witness :
  generate_portfolio rational_sqrt stalled_solver train_two test_two =
  generate_portfolio rational_sqrt settled_solver train_two test_two.
Proof.
  apply (convergence_flag_ignored rational_sqrt stalled_solver settled_solver
                                  train_two test_two).
  intros f x0 b c. reflexivity.
Defined.

(** C7, as the specification has it, fails: the solver reports for both
    test periods that it did not converge, and the run returns a schedule
    whose last two rows are the points the solver stopped at. *)
Lemma nonconvergence_not_propagated :
  Forall (fun t => OptimizeResult.success
                     (solve_period rational_sqrt stalled_solver
                                   (concat_returns train_two test_two)
                                   ten_stocks (month_end t)) = false)
         (rows test_two) /\
  exists (r : DataFrame) (w : WeightFrame),
    generate_portfolio rational_sqrt stalled_solver train_two test_two
    = Ok (r, w) /\
    map w_values (skipn 2 (w_rows w)) =
    map (fun t => OptimizeResult.x
                    (solve_period rational_sqrt stalled_solver
                                  (concat_returns train_two test_two)
                                  ten_stocks (month_end t)))
        (rows test_two).
Proof.
  split.
  - repeat constructor.
  - eexists. eexists. split; vm_compute; reflexivity.
Qed.

(** ** Degenerate history *)

Lemma pairwise_complete_length (a : list cell) :
  forall b : list cell, length (pairwise_complete a b) <= length a.
Proof.
  induction a as [ | u a IH ]; intros b; [ simpl; lia | ].
  destruct b as [ | v b ].
  - destruct u; simpl; lia.
  - specialize (IH b). destruct u, v; simpl; lia.
Qed.

Lemma series_cov_short (a b : list cell) :
  length a < 2 -> series_cov a b = NaN.
Proof.
  intros Ha. unfold series_cov.
  pose proof (pairwise_complete_length a b) as Hl.
  destruct (Nat.ltb_spec (length (pairwise_complete a b)) 2);
    [ reflexivity | lia ].
Qed.

Lemma df_cov_short (df : DataFrame) :
  length (rows df) < 2 ->
  Forall (Forall (fun c => c = NaN)) (df_cov df).
Proof.
  intros Hn. unfold df_cov. apply Forall_forall. intros row Hrow.
  apply in_map_iff in Hrow. destruct Hrow as [i [Hi _]]. subst row.
  apply Forall_forall. intros c Hc.
  apply in_map_iff in Hc. destruct Hc as [j [Hj _]]. subst c.
  apply series_cov_short. unfold column. rewrite length_map. exact Hn.
Qed.

(** C8, as the code has it.  For a test period with fewer than two rows
    dated before it, every entry of the covariance estimate is NaN; the
    estimate goes to the solver as it is and the step raises nothing: the
    point the solver returns, when it has one weight per stock, is appended
    as the period's row. *)
Theorem degenerate_history_not_surfaced (np_sqrt : cell -> cell)
        (minimize : solver) (df_returns : DataFrame)
        (list_stocks : list string) (t : Row) (w : WeightFrame) :
  length (rows (select_before df_returns (month_end t))) < 2 ->
  well_shaped np_sqrt minimize df_returns list_stocks t ->
  Forall (Forall (fun c => c = NaN))
         (snd (estimate df_returns (month_end t))) /\
  period_step np_sqrt minimize df_returns list_stocks (month_end t) w =
  Ok {| w_columns := w_columns w;
        w_rows := map drop_index (w_rows w)
                  ++ [optimized_row np_sqrt minimize df_returns list_stocks t]
     |}.
Proof.
  intros Hshort Hshape. split.
  - unfold estimate. cbn [snd]. apply df_cov_short. exact Hshort.
  - apply period_step_Ok. exact Hshape.
Qed.

Lemma degenerate_history_not_surfaced_witness :
  Forall (Forall (fun c => c = NaN))
         (snd (estimate (concat_returns train_one test_two) 90%Z)) /\
  period_step rational_sqrt settled_solver (concat_returns train_one test_two)
              ten_stocks 90%Z (training_weights train_one) =
  Ok {| w_columns := ten_stocks;
        w_rows := map drop_index (w_rows (training_weights train_one))
                  ++ [optimized_row rational_sqrt settled_solver
                                    (concat_returns train_one test_two)
                                    ten_stocks
                                    (month 90 [0; 1; 1; 2; -3; 5; 8; 1; 2; 1]%Z)]
     |}.
Proof.
  apply (degenerate_history_not_surfaced
           rational_sqrt settled_solver (concat_returns train_one test_two)
           ten_stocks (month 90 [0; 1; 1; 2; -3; 5; 8; 1; 2; 1]%Z)
           (training_weights train_one)).
  - vm_compute. lia.
  - vm_compute. reflexivity.
Defined.

(** C8, as the specification has it, fails: the first test period has one
    row of history, and the run returns a schedule with a row for it. *)
Lemma degenerate_history_returns :
  length (rows (select_before (concat_returns train_one test_two) 90%Z)) = 1 /\
  exists (r : DataFrame) (w : WeightFrame),
    generate_portfolio rational_sqrt settled_solver train_one test_two
    = Ok (r, w) /\
    map w_month_end (w_rows w) = [None; Some 90%Z; Some 120%Z] /\
    nth 1 (map w_values (w_rows w)) [] = repeat (Some (1 # 10)) 10.
Proof.
  split; [ reflexivity | ].
  eexists. eexists. split; [ | split ]; vm_compute; reflexivity.
Qed.

(** ** Date order *)

(** C9, as the code has it.  [generate_portfolio] does not look at the order
    of the dates: for any two frames over at least one stock, whatever their
    dates, every test period is estimated and solved, and the run returns
    the combined frame and the schedule unless a solver result has the wrong
    number of weights or a weight of the schedule exceeds 0.101. *)
Theorem dates_not_validated (np_sqrt : cell -> cell) (minimize : solver)
        (df_train df_test : DataFrame) :
  1 <= length (columns df_train) ->
  Forall (well_shaped np_sqrt minimize (concat_returns df_train df_test)
                      (columns df_train)) (rows df_test) ->
  ~ some_weight_exceeds (schedule np_sqrt minimize df_train df_test) ->
  generate_portfolio np_sqrt minimize df_train df_test =
  Ok (concat_returns df_train df_test,
      schedule np_sqrt minimize df_train df_test).
Proof.
  intros Hp Hshape Hnone. unfold generate_portfolio.
  rewrite (build_weights_Ok np_sqrt minimize df_train df_test Hp Hshape).
  cbn [bind]. unfold limit_check. cbn [snd].
  fold (schedule np_sqrt minimize df_train df_test).
  destruct (limit_exceeded (schedule np_sqrt minimize df_train df_test)) eqn:E;
    [ | reflexivity ].
  exfalso. apply Hnone. apply limit_exceeded_iff. exact E.
Qed.

Lemma not_exceeding (w : WeightFrame) :
  limit_exceeded w = false -> ~ some_weight_exceeds w.
Proof.
  intros E H. apply limit_exceeded_iff in H. congruence.
Qed.

Lemma dates_not_validated_witness :
  generate_portfolio rational_sqrt settled_solver train_unordered
                     test_overlapping =
  Ok (concat_returns train_unordered test_overlapping,
      schedule rational_sqrt settled_solver train_unordered test_overlapping).
Proof.
  apply (dates_not_validated rational_sqrt settled_solver train_unordered
                             test_overlapping).
  - vm_compute. lia.
  - repeat constructor.
  - apply not_exceeding. vm_compute. reflexivity.
Defined.

(** C9, as the specification has it, fails: the training dates decrease and
    the test dates fall inside the training range, and the run returns a
    schedule with a row for each of the two test periods. *)
Lemma unordered_dates_accepted :
  walk_forward_ordered train_unordered test_overlapping = false /\
  exists (r : DataFrame) (w : WeightFrame),
    generate_portfolio rational_sqrt settled_solver train_unordered
                       test_overlapping = Ok (r, w) /\
    map w_month_end (w_rows w) = [None; None; Some 59%Z; Some 59%Z].
Proof.
  split; [ reflexivity | ].
  eexists. eexists. split; vm_compute; reflexivity.
Qed.

(** ** No look-ahead *)

(** Rewriting rows dated [d] or later, into rows that are again dated [d] or
    later, leaves the rows dated before [d] as they were. *)
Lemma mutating_future_rows (d : date) (a b : list Row) :
  Forall2 (fun r s => r = s \/ (d <= month_end r /\ d <= month_end s)%Z) a b ->
  filter (fun r => (month_end r <? d)%Z) a =
  filter (fun r => (month_end r <? d)%Z) b.
Proof.
  induction 1 as [ | r s a b [Hrs | [Hr Hs]] _ IH ]; cbn [filter].
  - reflexivity.
  - subst s. now rewrite IH.
  - destruct (Z.ltb_spec (month_end r) d); [ lia | ].
    destruct (Z.ltb_spec (month_end s) d); [ lia | ]. exact IH.
Qed.

(** C2.  The estimate for the period dated [d] reads only the rows dated
    before [d]: two return frames over the same columns that agree on those
    rows give the same expected-return vector and the same covariance
    matrix, whatever their other rows hold. *)
Theorem estimate_no_look_ahead (a b : DataFrame) (d : date) :
  agree_before d a b -> estimate a d = estimate b d.
Proof.
  intros [Hcols Hrows]. unfold estimate, select_before.
  rewrite Hcols, Hrows. reflexivity.
Qed.

Lemma estimate_no_look_ahead_witness :
  estimate returns_seen 90%Z = estimate returns_mutated 90%Z.
Proof.
  apply (estimate_no_look_ahead returns_seen returns_mutated 90%Z).
  split; reflexivity.
Defined.

(** ** The walk-forward estimator *)

Lemma solve_period_estimate (np_sqrt : cell -> cell) (minimize : solver)
      (df_returns : DataFrame) (list_stocks : list string) (d : date) :
  solve_period np_sqrt minimize df_returns list_stocks d =
  minimize (fun w => sharpe_ratio np_sqrt w (fst (estimate df_returns d))
                                  (snd (estimate df_returns d)))
           (np_ones_div (length list_stocks))
           (bounds_of (length list_stocks)) constraints.
Proof. reflexivity. Qed.

Lemma np_sum_numbers (qs : list Q) : np_sum (map Some qs) = Some (Qsum qs).
Proof.
  induction qs as [ | q qs IH ]; [ reflexivity | ].
  cbn [map]. unfold np_sum in *. cbn [fold_right]. rewrite IH. reflexivity.
Qed.

Lemma dropna_numbers (qs : list Q) : dropna (map Some qs) = qs.
Proof.
  induction qs as [ | q qs IH ]; [ reflexivity | ].
  cbn [map dropna]. now rewrite IH.
Qed.

Lemma Qcount_map {A B : Type} (f : A -> B) (l : list A) :
  Qcount (map f l) = Qcount l.
Proof. unfold Qcount. now rewrite length_map. Qed.

Lemma Qcount_cons_nonzero {A : Type} (a : A) (l : list A) :
  Qeq_bool (Qcount (a :: l)) 0 = false.
Proof.
  destruct (Qeq_bool (Qcount (a :: l)) 0) eqn:E; [ | reflexivity ].
  apply Qeq_bool_iff in E. unfold Qcount, Qeq in E. cbn [length] in E.
  simpl Qnum in E. simpl Qden in E. lia.
Qed.

Lemma Qcount_minus_one_nonzero {A : Type} (a b : A) (l : list A) :
  Qeq_bool (Qcount (a :: b :: l) - 1) 0 = false.
Proof.
  destruct (Qeq_bool (Qcount (a :: b :: l) - 1) 0) eqn:E; [ | reflexivity ].
  apply Qeq_bool_iff in E.
  assert (H : (Qcount (a :: b :: l) == 1)%Q) by lra.
  unfold Qcount, Qeq in H. cbn [length] in H.
  simpl Qnum in H. simpl Qden in H. lia.
Qed.

Lemma spec_mean_numbers (q : Q) (qs : list Q) :
  spec_mean (map Some (q :: qs)) = Some (Qmean (q :: qs)).
Proof.
  unfold spec_mean. rewrite np_sum_numbers, Qcount_map.
  unfold num, fdiv. rewrite Qcount_cons_nonzero. reflexivity.
Qed.

(** The mean of a series is the arithmetic mean of its observed cells. *)
Lemma series_mean_observed (c : list cell) :
  series_mean c = spec_mean (observed c).
Proof.
  unfold series_mean, observed.
  destruct (dropna c) as [ | q qs ]; [ reflexivity | ].
  now rewrite spec_mean_numbers.
Qed.

Lemma spec_mean_fst (p : Q * Q) (ps : list (Q * Q)) :
  spec_mean (map (fun p => Some (fst p)) (p :: ps))
  = Some (Qmean (map fst (p :: ps))).
Proof.
  cbn [map]. rewrite <- (spec_mean_numbers (fst p) (map fst ps)).
  cbn [map]. now rewrite map_map.
Qed.

Lemma spec_mean_snd (p : Q * Q) (ps : list (Q * Q)) :
  spec_mean (map (fun p => Some (snd p)) (p :: ps))
  = Some (Qmean (map snd (p :: ps))).
Proof.
  cbn [map]. rewrite <- (spec_mean_numbers (snd p) (map snd ps)).
  cbn [map]. now rewrite map_map.
Qed.

Lemma zip_deviations (mx my : Q) (ps : list (Q * Q)) :
  zip_with (fun u v => fmul (fsub u (Some mx)) (fsub v (Some my)))
           (map (fun p => Some (fst p)) ps) (map (fun p => Some (snd p)) ps) =
  map Some (map (fun p => (fst p - mx) * (snd p - my))%Q ps).
Proof.
  induction ps as [ | p ps IH ]; [ reflexivity | ].
  cbn [map zip_with]. rewrite IH. reflexivity.
Qed.

(** An entry of the covariance matrix is the sample covariance of the rows in
    which both stocks are observed. *)
Lemma series_cov_observed (a b : list cell) :
  series_cov a b = spec_cov (observed_fst a b) (observed_snd a b).
Proof.
  unfold series_cov, spec_cov, observed_fst, observed_snd.
  rewrite length_map.
  destruct (pairwise_complete a b) as [ | p1 [ | p2 ps ] ] eqn:E;
    try reflexivity.
  change (length (p1 :: p2 :: ps) <? 2) with false. cbv iota.
  rewrite (spec_mean_fst p1 (p2 :: ps)), (spec_mean_snd p1 (p2 :: ps)).
  rewrite (zip_deviations _ _ (p1 :: p2 :: ps)), np_sum_numbers.
  pose proof (Qcount_minus_one_nonzero p1 p2 ps) as Hnz.
  unfold num, fdiv, Qcov, Qcount in *. rewrite length_map, Hnz. reflexivity.
Qed.

Lemma observed_numbers (c : list cell) :
  Forall is_number c -> observed c = c.
Proof.
  unfold observed. induction 1 as [ | x c [q Hq] _ IH ]; [ reflexivity | ].
  subst x. cbn [dropna map]. now rewrite IH.
Qed.

Lemma observed_pairs_numbers (a : list cell) :
  forall b : list cell,
    Forall is_number a -> Forall is_number b -> length a = length b ->
    observed_fst a b = a /\ observed_snd a b = b.
Proof.
  unfold observed_fst, observed_snd.
  induction a as [ | u a IH ]; intros b Ha Hb Hlen.
  - destruct b; [ split; reflexivity | discriminate Hlen ].
  - destruct b as [ | v b ]; [ discriminate Hlen | ].
    inversion Ha as [ | ? ? [qu Hu] Ha' ]; subst.
    inversion Hb as [ | ? ? [qv Hv] Hb' ]; subst.
    cbn [length] in Hlen. injection Hlen as Hlen.
    destruct (IH b Ha' Hb' Hlen) as [H1 H2].
    cbn [pairwise_complete map fst snd]. rewrite H1, H2. split; reflexivity.
Qed.

Lemma column_complete (df : DataFrame) (j : nat) :
  complete df -> j < length (columns df) -> Forall is_number (column j df).
Proof.
  unfold complete, column. intros Hall Hj.
  apply Forall_forall. intros c Hc. apply in_map_iff in Hc.
  destruct Hc as [r [Hr Hin]]. subst c.
  rewrite Forall_forall in Hall. destruct (Hall r Hin) as [qs [Hv Hlen]].
  rewrite Hv. exists (nth j qs 0%Q).
  rewrite (nth_indep _ NaN (Some 0%Q)) by (rewrite length_map; lia).
  apply (map_nth Some).
Qed.

Lemma column_length (df : DataFrame) (j : nat) :
  length (column j df) = length (rows df).
Proof. unfold column. apply length_map. Qed.

(** C4, as the code has it.  For every test period, the expected return of a
    stock is the arithmetic mean of the cells of that stock that are present
    in the rows dated before the period, and the covariance of two stocks is
    the unbiased sample covariance, with denominator [m - 1], of the [m]
    such rows in which both stocks are present (NaN when [m < 2]); when no
    cell of those rows is missing, that is the arithmetic mean over all [n]
    rows and the sample covariance with denominator [n - 1]. *)
Theorem estimate_over_observed (df_returns : DataFrame) (d : date) :
  let df_latest := select_before df_returns d in
  let p := length (columns df_latest) in
  fst (estimate df_returns d) =
    map (fun j => spec_mean (observed (column j df_latest))) (seq 0 p) /\
  snd (estimate df_returns d) =
    map (fun i =>
           map (fun j => spec_cov
                           (observed_fst (column i df_latest) (column j df_latest))
                           (observed_snd (column i df_latest) (column j df_latest)))
               (seq 0 p))
        (seq 0 p) /\
  (complete df_latest -> estimate df_returns d = spec_estimate df_returns d).
Proof.
  intros df_latest p.
  assert (Hmean : fst (estimate df_returns d) =
                  map (fun j => spec_mean (observed (column j df_latest)))
                      (seq 0 p)).
  { unfold estimate, df_mean. cbn [fst]. apply map_ext. intros j.
    apply series_mean_observed. }
  assert (Hcov : snd (estimate df_returns d) =
    map (fun i =>
           map (fun j => spec_cov
                           (observed_fst (column i df_latest) (column j df_latest))
                           (observed_snd (column i df_latest) (column j df_latest)))
               (seq 0 p))
        (seq 0 p)).
  { unfold estimate, df_cov. cbn [snd]. apply map_ext. intros i.
    apply map_ext. intros j. apply series_cov_observed. }
  split; [ exact Hmean | split; [ exact Hcov | ] ].
  intros Hcomplete.
  rewrite (surjective_pairing (estimate df_returns d)), Hmean, Hcov.
  unfold spec_estimate. fold df_latest. fold p. f_equal.
  - apply map_ext_in. intros j Hj. apply in_seq in Hj.
    rewrite observed_numbers; [ reflexivity | ].
    apply column_complete; [ exact Hcomplete | unfold p in Hj; lia ].
  - apply map_ext_in. intros i Hi. apply in_seq in Hi.
    apply map_ext_in. intros j Hj. apply in_seq in Hj.
    destruct (observed_pairs_numbers (column i df_latest) (column j df_latest))
      as [H1 H2].
    + apply column_complete; [ exact Hcomplete | unfold p in Hi; lia ].
    + apply column_complete; [ exact Hcomplete | unfold p in Hj; lia ].
    + now rewrite !column_length.
    + rewrite H1, H2. reflexivity.
Qed.

Lemma complete_month (d : date) (percent : list Z) :
  complete_row (length percent) (month d percent).
Proof.
  exists (map (fun k => k # 100) percent). unfold month. cbn [values].
  split; [ now rewrite map_map | apply length_map ].
Qed.

Lemma estimate_over_observed_witness :
  estimate returns_seen 120%Z = spec_estimate returns_seen 120%Z.
Proof.
  apply (estimate_over_observed returns_seen 120%Z).
  repeat constructor; apply (complete_month _ [_; _; _; _; _; _; _; _; _; _]%Z).
Defined.

(** C4, as the specification has it, fails on a frame with a missing cell:
    stock C has no return in the first of the three rows dated before day
    100.  Its mean is the mean of the two cells present, and its variance
    divides by 2 - 1, not by 3 - 1; over the three rows the mean and the
    covariance of the specification are undefined. *)
Lemma missing_cell_skipped :
  length (rows (select_before small_returns 100%Z)) = 3 /\
  cell_eq (nth 2 (fst (estimate small_returns 100%Z)) NaN) (Some (5 # 200)) /\
  nth 2 (fst (spec_estimate small_returns 100%Z)) NaN = NaN /\
  cell_eq (nth 2 (nth 2 (snd (estimate small_returns 100%Z)) []) NaN)
          (Some ((((1 # 100) - (5 # 200)) * ((1 # 100) - (5 # 200))
                  + ((4 # 100) - (5 # 200)) * ((4 # 100) - (5 # 200)))
                 / (2 - 1))%Q) /\
  nth 2 (nth 2 (snd (spec_estimate small_returns 100%Z)) []) NaN = NaN /\
  estimate small_returns 100%Z <> spec_estimate small_returns 100%Z.
Proof.
  split; [ reflexivity | ].
  split; [ vm_compute; reflexivity | ].
  split; [ vm_compute; reflexivity | ].
  split; [ vm_compute; reflexivity | ].
  split; [ vm_compute; reflexivity | ].
  intros H. apply (f_equal (fun e => nth 2 (fst e) NaN)) in H.
  vm_compute in H. discriminate H.
Qed.

(** ** The performance aggregator *)

Lemma zip_with_length {A B C : Type} (f : A -> B -> C) (l : list A) :
  forall m : list B, length l = length m -> length (zip_with f l m) = length l.
Proof.
  induction l as [ | a l IH ]; intros [ | b m ] H; try discriminate H.
  - reflexivity.
  - cbn [zip_with length] in *. injection H as H. now rewrite IH.
Qed.

Lemma np_mul2d_same_rows (a b : list (list cell)) :
  length a = length b -> np_mul2d a b = Ok (zip_with (zip_with fmul) a b).
Proof.
  intros H. unfold np_mul2d. rewrite H, Nat.eqb_refl. reflexivity.
Qed.

Lemma spec_period_return_cons (u c : cell) (w r : list cell) :
  spec_period_return (u :: w) (c :: r) =
  (number_of u * number_of c + spec_period_return w r)%Q.
Proof.
  unfold spec_period_return. cbn [length seq map Qsum fold_right nth].
  rewrite <- seq_shift, map_map. reflexivity.
Qed.

(** The realised return of a period as numpy computes it. *)
Lemma period_return_spec (w : list cell) :
  forall r : list cell,
    Forall is_number w -> length w = length r ->
    np_sum (zip_with fmul w (map nan_to_num r))
    = Some (spec_period_return w r).
Proof.
  induction w as [ | u w IH ]; intros [ | c r ] Hnum Hlen;
    try discriminate Hlen; [ reflexivity | ].
  inversion Hnum as [ | ? ? [q Hq] Hnum' ]; subst.
  cbn [length] in Hlen. injection Hlen as Hlen.
  rewrite spec_period_return_cons. cbn [map zip_with].
  unfold np_sum in *. cbn [fold_right]. rewrite (IH r Hnum' Hlen).
  destruct c; reflexivity.
Qed.

Lemma period_returns_spec (ws : list WRow) (rs : list Row) :
  Forall2 (fun wr r => length (w_values wr) = length (values r) /\
                       Forall is_number (w_values wr)) ws rs ->
  map np_sum (zip_with (zip_with fmul) (map w_values ws)
                       (map (fun r => map nan_to_num (values r)) rs))
  = zip_with (fun w r => Some (spec_period_return (w_values w) (values r)))
             ws rs.
Proof.
  induction 1 as [ | wr r ws rs [Hlen Hnum] _ IH ]; [ reflexivity | ].
  cbn [map zip_with]. rewrite IH, (period_return_spec _ _ Hnum Hlen).
  reflexivity.
Qed.

Lemma Forall2_same_length {A B : Type} (P : A -> B -> Prop)
      (l : list A) (m : list B) :
  Forall2 P l m -> length l = length m.
Proof. induction 1; cbn [length]; congruence. Qed.

(** *** Sorting by date *)

Lemma insert_by_date_perm (r : RtnRow) (l : list RtnRow) :
  Permutation (insert_by_date r l) (r :: l).
Proof.
  induction l as [ | h t IH ]; cbn [insert_by_date]; [ reflexivity | ].
  destruct (rtn_month_end r <=? rtn_month_end h)%Z; [ reflexivity | ].
  rewrite IH. apply perm_swap.
Qed.

Lemma sort_values_perm (l : list RtnRow) : Permutation (sort_values l) l.
Proof.
  induction l as [ | r l IH ]; [ reflexivity | ].
  unfold sort_values in *. cbn [fold_right].
  rewrite insert_by_date_perm. now constructor.
Qed.

Lemma insert_by_date_hd (r a : RtnRow) (l : list RtnRow) :
  date_le a r -> HdRel date_le a l -> HdRel date_le a (insert_by_date r l).
Proof.
  intros Har Hhd. destruct l as [ | h t ]; cbn [insert_by_date].
  - constructor. exact Har.
  - destruct (rtn_month_end r <=? rtn_month_end h)%Z.
    + constructor. exact Har.
    + inversion Hhd; subst. constructor. assumption.
Qed.

Lemma insert_by_date_sorted (r : RtnRow) (l : list RtnRow) :
  Sorted date_le l -> Sorted date_le (insert_by_date r l).
Proof.
  induction 1 as [ | h t Hsorted IH Hhd ]; cbn [insert_by_date].
  - repeat constructor.
  - destruct (Z.leb_spec (rtn_month_end r) (rtn_month_end h)) as [Hle | Hgt].
    + constructor; [ constructor; assumption | constructor; exact Hle ].
    + constructor; [ exact IH | ].
      apply insert_by_date_hd; [ unfold date_le; lia | exact Hhd ].
Qed.

Lemma sort_values_sorted (l : list RtnRow) : Sorted date_le (sort_values l).
Proof.
  induction l as [ | r l IH ]; [ constructor | ].
  unfold sort_values in *. cbn [fold_right].
  apply insert_by_date_sorted. exact IH.
Qed.

Lemma Sorted_map_dates (l : list RtnRow) :
  Sorted date_le l -> Sorted Z.le (map rtn_month_end l).
Proof.
  induction 1 as [ | h t _ IH Hhd ]; cbn [map]; constructor.
  - exact IH.
  - destruct Hhd; cbn [map]; constructor. assumption.
Qed.

(** *** The columns of the returned frame *)

Lemma zip_rows_length (d : list date) :
  forall vi vp : list cell,
    length vi = length d -> length vp = length d ->
    length (zip_rows d vi vp) = length d.
Proof.
  induction d as [ | d0 d IH ]; intros [ | i0 vi ] [ | p0 vp ] Hi Hp;
    try discriminate; [ reflexivity | ].
  cbn [zip_rows length] in *. injection Hi as Hi. injection Hp as Hp.
  now rewrite IH.
Qed.

Lemma zip_total_columns (l : list RtnRow) :
  forall itr ptr : list cell,
    length itr = length l -> length ptr = length l ->
    map period_of (zip_total l itr ptr) = l /\
    map index_tr (zip_total l itr ptr) = itr /\
    map portfolio_tr (zip_total l itr ptr) = ptr.
Proof.
  induction l as [ | r l IH ]; intros [ | i0 itr ] [ | p0 ptr ] Hi Hp;
    try discriminate; [ repeat split | ].
  cbn [length] in Hi, Hp. injection Hi as Hi. injection Hp as Hp.
  destruct (IH itr ptr Hi Hp) as [H1 [H2 H3]].
  cbn [zip_total map]. rewrite H1, H2, H3. destruct r. repeat split.
Qed.

Lemma cumprod_from_length (s : list cell) :
  forall acc : Q, length (cumprod_from acc s) = length s.
Proof.
  induction s as [ | [v | ] s IH ]; intros acc; cbn [cumprod_from length];
    [ reflexivity | | ]; now rewrite IH.
Qed.

Lemma total_return_length (s : list cell) :
  length (total_return s) = length s.
Proof.
  unfold total_return, cumprod.
  now rewrite length_map, cumprod_from_length, length_map.
Qed.

Lemma spec_product_cons (r : Q) (rs : list Q) (t : nat) :
  Qprod (map (fun k => 1 + nth k (r :: rs) 0)%Q (seq 0 (S (S t)))) =
  ((1 + r) * Qprod (map (fun k => 1 + nth k rs 0)%Q (seq 0 (S t))))%Q.
Proof.
  change (seq 0 (S (S t))) with (0 :: seq 1 (S t)).
  rewrite <- seq_shift, map_cons, map_map. reflexivity.
Qed.

(** The running product over a series of numbers, entry by entry. *)
Lemma cumprod_from_spec (s : list cell) :
  forall (acc : Q) (t : nat) (c : cell),
    Forall is_number s ->
    nth_error (cumprod_from acc (map (fadd (num 1)) s)) t = Some c ->
    exists q : Q,
      c = Some q /\
      (q == acc * Qprod (map (fun k => 1 + nth k (map number_of s) 0)
                             (seq 0 (S t))))%Q.
Proof.
  induction s as [ | x s IH ]; intros acc t c Hnum Hnth.
  - destruct t; discriminate Hnth.
  - inversion Hnum as [ | ? ? [r Hr] Hnum' ]; subst.
    cbn [map fadd lift2 num cumprod_from number_of] in *.
    unfold fadd, lift2, num in Hnth. cbn [cumprod_from] in Hnth.
    destruct t as [ | t ].
    + cbn [nth_error] in Hnth. injection Hnth as Hc. subst c.
      eexists. split; [ reflexivity | ].
      cbn [seq map nth Qprod fold_right]. ring.
    + cbn [nth_error] in Hnth.
      destruct (IH _ t c Hnum' Hnth) as [q [Hc Hq]].
      exists q. split; [ exact Hc | ].
      rewrite spec_product_cons, Hq. ring.
Qed.

Lemma total_return_spec (s : list cell) (t : nat) (c : cell) :
  Forall is_number s ->
  nth_error (total_return s) t = Some c ->
  cell_eq c (Some (spec_cumulative (map number_of s) t)).
Proof.
  intros Hnum Hnth. unfold total_return in Hnth.
  rewrite nth_error_map in Hnth.
  destruct (nth_error (cumprod (map (fadd (num 1)) s)) t) as [c' | ] eqn:E;
    [ | discriminate Hnth ].
  cbn [option_map] in Hnth. injection Hnth as Hc. subst c.
  destruct (cumprod_from_spec s 1%Q t c' Hnum E) as [q [Hc Hq]]. subst c'.
  unfold fmul, lift2, num, cell_eq, spec_cumulative, base_price.
  rewrite Hq. ring.
Qed.

Lemma zip_with_numbers (ws : list WRow) :
  forall rs : list Row,
    Forall is_number
           (zip_with (fun w r => Some (spec_period_return (w_values w) (values r)))
                     ws rs).
Proof.
  induction ws as [ | w ws IH ]; intros [ | r rs ]; cbn [zip_with];
    constructor; [ eexists; reflexivity | apply IH ].
Qed.

Lemma zip_rows_numbers (d : list date) :
  forall vi vp : list cell,
    Forall is_number vi -> Forall is_number vp ->
    Forall (fun r => is_number (rtn_index r) /\ is_number (rtn_portfolio r))
           (zip_rows d vi vp).
Proof.
  induction d as [ | d0 d IH ]; intros vi vp Hi Hp; [ constructor | ].
  destruct Hi as [ | i0 vi Hi0 Hi ]; [ constructor | ].
  destruct Hp as [ | p0 vp Hp0 Hp ]; [ constructor | ].
  cbn [zip_rows]. constructor; [ split; assumption | apply IH; assumption ].
Qed.

Lemma plot_total_return_eq (df_returns : DataFrame)
      (w_index w_portfolio : WeightFrame) :
  weights_over df_returns w_index ->
  weights_over df_returns w_portfolio ->
  plot_total_return df_returns w_index w_portfolio =
  let df_rtn := sort_values (spec_period_rows df_returns w_index w_portfolio) in
  Ok (zip_total df_rtn (total_return (map rtn_index df_rtn))
                (total_return (map rtn_portfolio df_rtn))).
Proof.
  intros Hi Hp. unfold plot_total_return.
  pose proof (Forall2_same_length _ _ _ Hi) as Li.
  pose proof (Forall2_same_length _ _ _ Hp) as Lp.
  rewrite !np_mul2d_same_rows by (rewrite !length_map; assumption).
  cbn [bind].
  rewrite (period_returns_spec _ _ Hi), (period_returns_spec _ _ Hp).
  unfold assign_column.
  rewrite !zip_with_length by assumption.
  rewrite Li, Lp, Nat.eqb_refl. cbn [bind]. reflexivity.
Qed.

(** C6.  For weight schedules laid over the return frame (a row of numbers
    per period, a weight per stock), [plot_total_return] returns one row per
    period holding, for each strategy, the sum over the stocks of weight
    times return with a missing return counted as 0; the rows are in
    ascending date order; the cumulative index of each strategy at the t-th
    row is [100 * prod_{k <= t} (1 + return_k)] over the rows in that order;
    and a zero return in the first row gives a first index of exactly 100. *)
Theorem total_return_indices (df_returns : DataFrame)
        (w_index w_portfolio : WeightFrame) :
  weights_over df_returns w_index ->
  weights_over df_returns w_portfolio ->
  exists out : list TotalReturnRow,
    plot_total_return df_returns w_index w_portfolio = Ok out /\
    Permutation (map period_of out)
                (spec_period_rows df_returns w_index w_portfolio) /\
    Sorted Z.le (map tr_month_end out) /\
    (forall (t : nat) (row : TotalReturnRow),
        nth_error out t = Some row ->
        cell_eq (index_tr row)
                (Some (spec_cumulative (index_returns out) t)) /\
        cell_eq (portfolio_tr row)
                (Some (spec_cumulative (portfolio_returns out) t))) /\
    (forall row : TotalReturnRow,
        nth_error out 0 = Some row ->
        (cell_eq (index row) (Some 0%Q) ->
         cell_eq (index_tr row) (Some 100%Q)) /\
        (cell_eq (portfolio row) (Some 0%Q) ->
         cell_eq (portfolio_tr row) (Some 100%Q))).
Proof.
  intros Hi Hp.
  rewrite (plot_total_return_eq _ _ _ Hi Hp). cbv zeta.
  set (periods := spec_period_rows df_returns w_index w_portfolio).
  set (df_rtn := sort_values periods).
  set (out := zip_total df_rtn (total_return (map rtn_index df_rtn))
                        (total_return (map rtn_portfolio df_rtn))).
  destruct (zip_total_columns df_rtn (total_return (map rtn_index df_rtn))
                              (total_return (map rtn_portfolio df_rtn)))
    as [Hper [Hitr Hptr]];
    try (rewrite total_return_length; apply length_map).
  fold out in Hper, Hitr, Hptr.
  assert (Hnum : Forall (fun r => is_number (rtn_index r) /\
                                  is_number (rtn_portfolio r)) df_rtn).
  { apply (Permutation_Forall (Permutation_sym (sort_values_perm periods))).
    apply zip_rows_numbers; apply zip_with_numbers. }
  assert (Hnum_i : Forall is_number (map rtn_index df_rtn)).
  { rewrite Forall_map. eapply Forall_impl; [ | exact Hnum ].
    intros a [H _]. exact H. }
  assert (Hnum_p : Forall is_number (map rtn_portfolio df_rtn)).
  { rewrite Forall_map. eapply Forall_impl; [ | exact Hnum ].
    intros a [_ H]. exact H. }
  assert (Hri : index_returns out = map number_of (map rtn_index df_rtn)).
  { rewrite <- Hper. unfold index_returns. now rewrite !map_map. }
  assert (Hrp : portfolio_returns out
                = map number_of (map rtn_portfolio df_rtn)).
  { rewrite <- Hper. unfold portfolio_returns. now rewrite !map_map. }
  assert (Hcum : forall (t : nat) (row : TotalReturnRow),
             nth_error out t = Some row ->
             cell_eq (index_tr row)
                     (Some (spec_cumulative (index_returns out) t)) /\
             cell_eq (portfolio_tr row)
                     (Some (spec_cumulative (portfolio_returns out) t))).
  { intros t row Hrow. rewrite Hri, Hrp. split.
    - apply total_return_spec; [ exact Hnum_i | ].
      rewrite <- Hitr. now apply map_nth_error.
    - apply total_return_spec; [ exact Hnum_p | ].
      rewrite <- Hptr. now apply map_nth_error. }
  exists out. split; [ reflexivity | ]. split; [ | split; [ | split ] ].
  - rewrite Hper. apply sort_values_perm.
  - replace (map tr_month_end out) with (map rtn_month_end (map period_of out))
      by (now rewrite map_map).
    rewrite Hper. apply Sorted_map_dates, sort_values_sorted.
  - exact Hcum.
  - intros row Hrow. destruct (Hcum 0 row Hrow) as [Hci Hcp].
    destruct out as [ | row0 rest ]; [ discriminate Hrow | ].
    cbn [nth_error] in Hrow. injection Hrow as Hrow. subst row0.
    unfold index_returns, portfolio_returns, spec_cumulative in Hci, Hcp.
    cbn [map seq nth Qprod fold_right] in Hci, Hcp.
    split; intros Hzero.
    + destruct (index row) as [q | ]; [ | contradiction ].
      destruct (index_tr row) as [c | ]; [ | contradiction ].
      cbn [cell_eq number_of] in *. rewrite Hci, Hzero. ring.
    + destruct (portfolio row) as [q | ]; [ | contradiction ].
      destruct (portfolio_tr row) as [c | ]; [ | contradiction ].
      cbn [cell_eq number_of] in *. rewrite Hcp, Hzero. ring.
Qed.

Lemma total_return_indices_witness :
  exists out : list TotalReturnRow,
    plot_total_return small_returns small_index_weights
                      small_portfolio_weights = Ok out /\
    Permutation (map period_of out)
                (spec_period_rows small_returns small_index_weights
                                  small_portfolio_weights) /\
    Sorted Z.le (map tr_month_end out) /\
    (forall (t : nat) (row : TotalReturnRow),
        nth_error out t = Some row ->
        cell_eq (index_tr row)
                (Some (spec_cumulative (index_returns out) t)) /\
        cell_eq (portfolio_tr row)
                (Some (spec_cumulative (portfolio_returns out) t))) /\
    (forall row : TotalReturnRow,
        nth_error out 0 = Some row ->
        (cell_eq (index row) (Some 0%Q) ->
         cell_eq (index_tr row) (Some 100%Q)) /\
        (cell_eq (portfolio row) (Some 0%Q) ->
         cell_eq (portfolio_tr row) (Some 100%Q))).
Proof.
  apply (total_return_indices small_returns small_index_weights
                              small_portfolio_weights);
    unfold weights_over; cbn [w_rows rows small_returns small_index_weights
                              small_portfolio_weights];
    repeat (constructor;
            [ split; [ reflexivity
                     | repeat (constructor; [ eexists; reflexivity | ]);
                       constructor ]
            | ]);
    constructor.
Defined.

(** The portfolio of the small frame holds only stock C in the first month,
    whose return is missing there: the month counts as flat and the index
    starts at 100. *)
Example small_portfolio_index :
  exists out : list TotalReturnRow,
    plot_total_return small_returns small_index_weights
                      small_portfolio_weights = Ok out /\
    map tr_month_end out = [31; 59; 90]%Z /\
    Forall2 cell_eq (map portfolio out)
            [Some 0%Q; Some (15 # 1000); Some (24 # 1000)] /\
    Forall2 cell_eq (map portfolio_tr out)
            [Some 100%Q; Some (203 # 2); Some (12992 # 125)] /\
    Forall2 cell_eq (map index_tr out)
            [Some 101%Q; Some (10201 # 100); Some ((10201 # 100) * (304 # 300))%Q].
Proof.
  eexists. split; [ vm_compute; reflexivity | ].
  split; [ reflexivity | ].
  repeat split; repeat (constructor; [ vm_compute; reflexivity | ]); constructor.
Qed.

(** ** The objective and the constraints handed to the solver *)

Lemma Qcount_cons {A : Type} (a : A) (l : list A) :
  (Qcount (a :: l) == 1 + Qcount l)%Q.
Proof.
  unfold Qcount. cbn [length]. rewrite Nat2Z.inj_succ, <- Z.add_1_l.
  rewrite inject_Z_plus. reflexivity.
Qed.

Lemma Qle_bool_false (x y : Q) : Qle_bool x y = false <-> (y < x)%Q.
Proof.
  split.
  - intros H. apply Qnot_le_lt. intros Hle. apply Qle_bool_iff in Hle.
    congruence.
  - intros H. destruct (Qle_bool x y) eqn:E; [ | reflexivity ].
    apply Qle_bool_iff in E. exfalso. exact (Qlt_not_le _ _ H E).
Qed.

(** *** The feasible set *)

Lemma within_bounds_iff (n : nat) :
  forall w : list cell,
    within_bounds (bounds_of n) w = true <->
    exists qs : list Q,
      w = map Some qs /\ length qs = n /\
      Forall (fun q => (0 <= q)%Q /\ (q <= 1)%Q) qs.
Proof.
  unfold bounds_of. induction n as [ | n IH ]; intros w; cbn [repeat within_bounds].
  - split.
    + destruct w; [ | discriminate ]. intros _. exists []. repeat split.
      constructor.
    + intros [qs [Hw [Hlen _]]]. destruct qs; [ | discriminate Hlen ].
      subst w. reflexivity.
  - split.
    + destruct w as [ | [q | ] w ]; try discriminate. intros H.
      apply andb_true_iff in H. destruct H as [H Hrest].
      apply andb_true_iff in H. destruct H as [Hlo Hhi].
      apply Qle_bool_iff in Hlo, Hhi.
      apply IH in Hrest. destruct Hrest as [qs [Hw [Hlen Hall]]].
      exists (q :: qs). subst w. cbn [map length].
      repeat split; [ congruence | ]. constructor; [ split | ]; assumption.
    + intros [qs [Hw [Hlen Hall]]].
      destruct qs as [ | q qs ]; [ discriminate Hlen | ].
      subst w. cbn [map]. inversion Hall as [ | ? ? [Hlo Hhi] Hall' ]; subst.
      cbn [length] in Hlen. injection Hlen as Hlen.
      apply andb_true_iff. split; [ apply andb_true_iff; split | ].
      * apply Qle_bool_iff. exact Hlo.
      * apply Qle_bool_iff. exact Hhi.
      * apply IH. exists qs. auto.
Qed.

Lemma cap_constraint_iff (qs : list Q) :
  forallb fge0 (map (fun wi => fsub (num (1 # 10)) wi) (map Some qs)) = true
  <-> Forall (fun q => (q <= 1 # 10)%Q) qs.
Proof.
  induction qs as [ | q qs IH ]; cbn [map forallb].
  - split; [ constructor | reflexivity ].
  - rewrite andb_true_iff, IH. unfold num, fsub, lift2, fge0.
    rewrite Qle_bool_iff. split.
    + intros [Hq Hall]. constructor; [ lra | exact Hall ].
    + intros Hall. inversion Hall; subst. split; [ lra | assumption ].
Qed.

(** The constraints and bounds the code passes to the solver describe the
    feasible set of the specification. *)
Lemma feasible_iff (n : nat) (w : list cell) :
  feasible n w = true <->
  exists qs : list Q, w = map Some qs /\ length qs = n /\ spec_feasible qs.
Proof.
  unfold feasible, spec_feasible. rewrite andb_true_iff, within_bounds_iff.
  split.
  - intros [[qs [Hw [Hlen Hbox]]] Hcons]. subst w.
    cbn [constraints forallb satisfies c_type c_fun] in Hcons.
    rewrite !andb_true_iff in Hcons. destruct Hcons as [[Heq _] [Hcap _]].
    rewrite np_sum_numbers in Heq. unfold num, fsub, lift2, feq0 in Heq.
    apply Qeq_bool_iff in Heq. apply cap_constraint_iff in Hcap.
    exists qs. repeat split; [ exact Hlen | lra | ].
    rewrite Forall_forall in *. intros q Hq.
    destruct (Hbox q Hq). specialize (Hcap q Hq). auto.
  - intros [qs [Hw [Hlen [Hsum Hall]]]]. subst w. split.
    + exists qs. repeat split; [ exact Hlen | ].
      eapply Forall_impl; [ | exact Hall ]. intros q [H0 [H1 _]]. auto.
    + cbn [constraints forallb satisfies c_type c_fun].
      rewrite !andb_true_iff. repeat split.
      * rewrite np_sum_numbers. unfold num, fsub, lift2, feq0.
        apply Qeq_bool_iff. lra.
      * apply cap_constraint_iff.
        eapply Forall_impl; [ | exact Hall ]. intros q [_ [_ H]]. exact H.
Qed.

(** *** Dot products of numbers *)

Lemma cell_eq_numbers (v : list cell) :
  forall ms0 : list Q,
    Forall2 cell_eq v (map Some ms0) ->
    exists ms : list Q, v = map Some ms /\ Forall2 Qeq ms ms0.
Proof.
  induction v as [ | c v IH ]; intros ms0 H.
  - inversion H as [ Hnil | ]. exists []. split; [ reflexivity | ].
    destruct ms0; [ constructor | discriminate ].
  - destruct ms0 as [ | m0 ms0 ]; inversion H as [ | ? ? ? ? Hc Hrest ]; subst.
    destruct (IH ms0 Hrest) as [ms [Hv Hms]]. subst v.
    destruct c as [m | ]; [ | contradiction ].
    exists (m :: ms). split; [ reflexivity | constructor; assumption ].
Qed.

Lemma np_dot_numbers (a : list Q) :
  forall b : list Q, np_dot (map Some a) (map Some b) = Some (Qdot a b).
Proof.
  unfold np_dot, Qdot, np_sum.
  induction a as [ | x a IH ]; intros [ | y b ]; try reflexivity.
  cbn [map zip_with fold_right]. rewrite IH. reflexivity.
Qed.

Lemma Qdot_compat (a a' : list Q) :
  Forall2 Qeq a a' ->
  forall b b' : list Q, Forall2 Qeq b b' -> (Qdot a b == Qdot a' b')%Q.
Proof.
  unfold Qdot. induction 1 as [ | x x' a a' Hx _ IH ]; intros b b' Hb.
  - reflexivity.
  - destruct Hb as [ | y y' b b' Hy Hb ]; [ reflexivity | ].
    cbn [zip_with Qsum fold_right]. fold (Qsum (zip_with Qmult a b)).
    fold (Qsum (zip_with Qmult a' b')). rewrite (IH _ _ Hb), Hx, Hy.
    reflexivity.
Qed.

Lemma Forall2_Qeq_refl (a : list Q) : Forall2 Qeq a a.
Proof. induction a; constructor; [ reflexivity | assumption ]. Qed.

Lemma Qdot_zeros (a : list Q) :
  forall k : nat, (Qdot a (repeat 0 k) == 0)%Q.
Proof.
  unfold Qdot. induction a as [ | x a IH ]; intros [ | k ]; try reflexivity.
  cbn [repeat zip_with Qsum fold_right].
  fold (Qsum (zip_with Qmult a (repeat 0%Q k))). rewrite IH. ring.
Qed.

Lemma Qdot_ones_l (a : list Q) :
  (Qdot (repeat 1 (length a)) a == Qsum a)%Q.
Proof.
  unfold Qdot. induction a as [ | x a IH ]; [ reflexivity | ].
  cbn [length repeat zip_with Qsum fold_right].
  fold (Qsum (zip_with Qmult (repeat 1%Q (length a)) a)). fold (Qsum a).
  rewrite IH. ring.
Qed.

Lemma Qdot_constant (s : Q) (a : list Q) :
  forall vs : list Q,
    length vs = length a -> Forall (fun v => (v == s)%Q) vs ->
    (Qdot a vs == Qsum a * s)%Q.
Proof.
  unfold Qdot. induction a as [ | x a IH ]; intros [ | v vs ] Hlen Hall;
    try discriminate Hlen.
  - cbn. ring.
  - inversion Hall as [ | ? ? Hv Hall' ]; subst.
    cbn [length] in Hlen. injection Hlen as Hlen.
    cbn [zip_with Qsum fold_right]. fold (Qsum (zip_with Qmult a vs)).
    fold (Qsum a). rewrite (IH vs Hlen Hall'), Hv. ring.
Qed.

(** Under a covariance matrix of ones, every entry of [Sigma w] is the sum
    of the weights. *)
Lemma matvec_ones (qs : list Q) (sigma : list (list cell)) :
  forall m : nat,
    Forall2 (Forall2 cell_eq) sigma (repeat (repeat (Some 1%Q) (length qs)) m) ->
    exists vs : list Q,
      np_matvec sigma (map Some qs) = map Some vs /\
      length vs = m /\
      Forall (fun v => (v == Qsum qs)%Q) vs.
Proof.
  induction sigma as [ | r sigma IH ]; intros m H.
  - inversion H as [ Hnil | ]. destruct m; [ | discriminate ].
    exists []. repeat split. constructor.
  - destruct m as [ | m ]; inversion H as [ | ? ? ? ? Hr Hrest ]; subst.
    destruct (IH m Hrest) as [vs [Hvs [Hlen Hall]]].
    replace (repeat (Some 1%Q) (length qs))
      with (map Some (repeat 1%Q (length qs))) in Hr
      by (now rewrite map_repeat).
    destruct (cell_eq_numbers _ _ Hr) as [rs [Hrs Hones]]. subst r.
    exists (Qdot rs qs :: vs). unfold np_matvec in *. cbn [map].
    rewrite Hvs, np_dot_numbers. repeat split.
    + cbn [length]. congruence.
    + constructor; [ | exact Hall ].
      rewrite (Qdot_compat _ _ Hones _ _ (Forall2_Qeq_refl qs)).
      apply Qdot_ones_l.
Qed.

(** *** Weights at the cap *)

Lemma capped_sum_le (c : Q) (l : list Q) :
  Forall (fun q => (q <= c)%Q) l -> (Qsum l <= c * Qcount l)%Q.
Proof.
  induction 1 as [ | q l Hq _ IH ].
  - change (Qcount (@nil Q)) with 0%Q. cbn [Qsum fold_right]. lra.
  - cbn [Qsum fold_right]. fold (Qsum l). rewrite Qcount_cons. lra.
Qed.

Lemma capped_sum_eq (c : Q) (l : list Q) :
  Forall (fun q => (q <= c)%Q) l -> (Qsum l == c * Qcount l)%Q ->
  Forall (fun q => (q == c)%Q) l.
Proof.
  induction 1 as [ | q l Hq Hall IH ]; intros Hsum; [ constructor | ].
  cbn [Qsum fold_right] in Hsum. fold (Qsum l) in Hsum.
  rewrite Qcount_cons in Hsum.
  pose proof (capped_sum_le c l Hall) as Hle.
  constructor; [ lra | apply IH; lra ].
Qed.

Lemma constant_weights (c : Q) (l : list Q) :
  Forall (fun q => (q == c)%Q) l ->
  Forall2 cell_eq (map Some l) (repeat (Some c) (length l)).
Proof.
  induction 1 as [ | q l Hq _ IH ]; cbn [map length repeat]; constructor;
    assumption.
Qed.

(** *** The objective under one common factor *)

Section CommonFactor.

Variable np_sqrt : cell -> cell.
Hypothesis sqrt_one :
  forall v : Q, (v == 1)%Q -> cell_eq (np_sqrt (Some v)) (Some 1%Q).

Variable k : nat.
Variable mu : list cell.
Variable sigma : list (list cell).
Hypothesis Hmu : Forall2 cell_eq mu (mu_first k).
Hypothesis Hsigma : Forall2 (Forall2 cell_eq) sigma (cov_ones (S k)).

Lemma return_first (q : Q) (qs : list Q) :
  exists r : Q, np_dot (map Some (q :: qs)) mu = Some r /\ (r == q)%Q.
Proof.
  unfold mu_first in Hmu.
  replace (Some 1%Q :: repeat (Some 0%Q) k)
    with (map Some (1%Q :: repeat 0%Q k)) in Hmu
    by (cbn [map]; now rewrite map_repeat).
  destruct (cell_eq_numbers _ _ Hmu) as [ms [Hms Heq]]. subst mu.
  rewrite np_dot_numbers. eexists. split; [ reflexivity | ].
  rewrite (Qdot_compat _ _ (Forall2_Qeq_refl (q :: qs)) _ _ Heq).
  unfold Qdot. cbn [zip_with Qsum fold_right].
  fold (Qsum (zip_with Qmult qs (repeat 0%Q k))). fold (Qdot qs (repeat 0%Q k)).
  rewrite Qdot_zeros. ring.
Qed.

Lemma volatility_one (qs : list Q) :
  length qs = S k -> (Qsum qs == 1)%Q ->
  exists s : Q,
    np_sqrt (np_dot (map Some qs) (np_matvec sigma (map Some qs))) = Some s /\
    (s == 1)%Q.
Proof.
  intros Hlen Hsum. unfold cov_ones in Hsigma. rewrite <- Hlen in Hsigma.
  destruct (matvec_ones qs sigma _ Hsigma) as [vs [Hvs [Hl Hall]]].
  rewrite Hvs, np_dot_numbers.
  assert (Hv : (Qdot qs vs == 1)%Q).
  { rewrite (Qdot_constant (Qsum qs) qs vs Hl Hall), Hsum. ring. }
  specialize (sqrt_one _ Hv).
  destruct (np_sqrt (Some (Qdot qs vs))) as [s | ]; [ | contradiction ].
  exists s. split; [ reflexivity | exact sqrt_one ].
Qed.

(** What the code hands to the solver: [2 * 100^3] times the weight of the
    first stock. *)
Lemma sharpe_ratio_value (q : Q) (qs : list Q) :
  length qs = k -> (q + Qsum qs == 1)%Q ->
  exists g : Q,
    sharpe_ratio np_sqrt (map Some (q :: qs)) mu sigma = Some g /\
    (g == 2000000 * q)%Q.
Proof.
  intros Hlen Hsum. unfold sharpe_ratio.
  destruct (return_first q qs) as [r [Hr Hrq]].
  destruct (volatility_one (q :: qs)) as [s [Hs Hs1]];
    [ cbn [length]; congruence | exact Hsum | ].
  rewrite Hr, Hs. unfold num, fmul, lift2, fcube, fdiv.
  change (Qeq_bool (1 # 2) 0) with false. cbv iota.
  eexists. split; [ reflexivity | ]. rewrite Hrq, Hs1. field.
Qed.

(** What the specification asks to maximise: the weight of the first
    stock over [0.5 * 100^3]. *)
Lemma spec_objective_value (q : Q) (qs : list Q) :
  length qs = k -> (q + Qsum qs == 1)%Q ->
  exists f : Q,
    spec_objective np_sqrt (map Some (q :: qs)) mu sigma = Some f /\
    (f == q / 500000)%Q.
Proof.
  intros Hlen Hsum. unfold spec_objective.
  destruct (return_first q qs) as [r [Hr Hrq]].
  destruct (volatility_one (q :: qs)) as [s [Hs Hs1]];
    [ cbn [length]; congruence | exact Hsum | ].
  rewrite Hr, Hs. unfold num, fmul, lift2, fcube, fdiv.
  assert (Hd : ((1 # 2) * (100 * s * (100 * s) * (100 * s)) == 500000)%Q)
    by (rewrite Hs1; ring).
  destruct (Qeq_bool ((1 # 2) * (100 * s * (100 * s) * (100 * s))) 0) eqn:E.
  - apply Qeq_bool_iff in E. rewrite Hd in E. discriminate E.
  - eexists. split; [ reflexivity | ]. rewrite Hrq, Hd. reflexivity.
Qed.

End CommonFactor.

Lemma estimate_factor :
  Forall2 cell_eq
          (fst (estimate (concat_returns train_factor test_factor) 120%Z))
          (mu_first 10) /\
  Forall2 (Forall2 cell_eq)
          (snd (estimate (concat_returns train_factor test_factor) 120%Z))
          (cov_ones 11).
Proof.
  split.
  - vm_compute. repeat (constructor; [ reflexivity | ]). constructor.
  - vm_compute.
    repeat (constructor;
            [ repeat (constructor; [ reflexivity | ]); constructor | ]).
    constructor.
Qed.

(** C1 on the code.  For the eleven stocks driven by one common factor, the
    solver is called, under the bounds and constraints of the specification,
    with the objective [sharpe_ratio], which is [(w . mu) / 0.5 * (100 *
    sqrt(w' Sigma w))^3] and is minimised: its only minimiser over the
    feasible set is [w_low], which holds nothing of the one stock with a
    positive expected return, while the objective of the specification is
    strictly larger at the feasible [w_high] than at [w_low]. *)
Theorem objective_minimised_not_maximised (np_sqrt : cell -> cell) :
  (forall v : Q, (v == 1)%Q -> cell_eq (np_sqrt (Some v)) (Some 1%Q)) ->
  let df_returns := concat_returns train_factor test_factor in
  let mu := fst (estimate df_returns 120%Z) in
  let sigma := snd (estimate df_returns 120%Z) in
  (forall minimize : solver,
      solve_period np_sqrt minimize df_returns eleven_stocks 120%Z =
      minimize (fun w => sharpe_ratio np_sqrt w mu sigma)
               (np_ones_div 11) (bounds_of 11) constraints) /\
  feasible 11 w_low = true /\
  feasible 11 w_high = true /\
  (forall w : list cell,
      feasible 11 w = true ->
      exists g g_low : Q,
        sharpe_ratio np_sqrt w mu sigma = Some g /\
        sharpe_ratio np_sqrt w_low mu sigma = Some g_low /\
        (g_low <= g)%Q /\
        ((g <= g_low)%Q -> Forall2 cell_eq w w_low)) /\
  exists f_low f_high : Q,
    spec_objective np_sqrt w_low mu sigma = Some f_low /\
    spec_objective np_sqrt w_high mu sigma = Some f_high /\
    (f_low < f_high)%Q.
Proof.
  intros sqrt_one df_returns mu sigma.
  destruct estimate_factor as [Hmu Hsigma]. fold df_returns mu sigma in Hmu, Hsigma.
  split; [ intros minimize; reflexivity | ].
  split; [ reflexivity | ]. split; [ reflexivity | ]. split.
  - intros w Hw. apply feasible_iff in Hw.
    destruct Hw as [qs [Hqs [Hlen [Hsum Hall]]]]. subst w.
    destruct qs as [ | q qs ]; [ discriminate Hlen | ].
    cbn [length] in Hlen. injection Hlen as Hlen.
    cbn [Qsum fold_right] in Hsum. fold (Qsum qs) in Hsum.
    destruct (sharpe_ratio_value np_sqrt sqrt_one 10 mu sigma Hmu Hsigma
                                 q qs Hlen Hsum) as [g [Hg Hgq]].
    destruct (sharpe_ratio_value np_sqrt sqrt_one 10 mu sigma Hmu Hsigma
                                 0%Q (repeat (1 # 10) 10) eq_refl eq_refl)
      as [g_low [Hlow Hlowq]].
    exists g, g_low. split; [ exact Hg | ]. split; [ exact Hlow | ].
    inversion Hall as [ | ? ? [Hq0 _] Hrest ]; subst.
    split; [ lra | ]. intros Hle.
    assert (Hqz : (q == 0)%Q) by lra.
    assert (Hcap : Forall (fun x => (x <= 1 # 10)%Q) qs).
    { eapply Forall_impl; [ | exact Hrest ]. intros x [_ [_ H]]. exact H. }
    assert (Hfull : (Qsum qs == (1 # 10) * Qcount qs)%Q).
    { unfold Qcount. rewrite Hlen. change (inject_Z (Z.of_nat 10)) with 10%Q.
      lra. }
    pose proof (constant_weights _ _ (capped_sum_eq _ _ Hcap Hfull)) as Hqs.
    rewrite Hlen in Hqs. unfold w_low. cbn [map].
    constructor; [ exact Hqz | exact Hqs ].
  - destruct (spec_objective_value np_sqrt sqrt_one 10 mu sigma Hmu Hsigma
                                   0%Q (repeat (1 # 10) 10) eq_refl eq_refl)
      as [f_low [Hlow Hlowq]].
    destruct (spec_objective_value np_sqrt sqrt_one 10 mu sigma Hmu Hsigma
                                   (1 # 10) (repeat (9 # 100) 10) eq_refl
                                   eq_refl)
      as [f_high [Hhigh Hhighq]].
    exists f_low, f_high. split; [ exact Hlow | ]. split; [ exact Hhigh | ].
    rewrite Hlowq, Hhighq. reflexivity.
Qed.

Lemma rational_sqrt_one (v : Q) :
  (v == 1)%Q -> cell_eq (rational_sqrt (Some v)) (Some 1%Q).
Proof.
  intros Hv. unfold rational_sqrt.
  assert (Hpos : Qle_bool 0 v = true) by (apply Qle_bool_iff; lra).
  rewrite Hpos, (Qred_complete _ _ Hv). reflexivity.
Qed.

Lemma objective_minimised_not_maximised_witness :
  exists f_low f_high : Q,
    spec_objective rational_sqrt w_low
                   (fst (estimate (concat_returns train_factor test_factor) 120%Z))
                   (snd (estimate (concat_returns train_factor test_factor) 120%Z))
    = Some f_low /\
    spec_objective rational_sqrt w_high
                   (fst (estimate (concat_returns train_factor test_factor) 120%Z))
                   (snd (estimate (concat_returns train_factor test_factor) 120%Z))
    = Some f_high /\
    (f_low < f_high)%Q.
Proof.
  apply (objective_minimised_not_maximised rational_sqrt rational_sqrt_one).
Defined.

(** * Further properties of the code *)

(** ** Failures of [equalise_weights] and [generate_portfolio] *)

(** X1.  [equalise_weights] fails in exactly one case: the frame has no
    stock column, and the failure is the [ZeroDivisionError] of
    [1 / len(list_stocks)]; the number of rows plays no part. *)
Theorem equalise_weights_failure (df : DataFrame) (e : exn) :
  equalise_weights df = Raise e <->
  columns df = [] /\ e = ZeroDivisionError.
Proof.
  split.
  - intros H. destruct (columns df) as [ | c cs ] eqn:Ec.
    + unfold equalise_weights in H. rewrite Ec in H. cbn in H.
      inversion H. split; reflexivity.
    + rewrite equalise_weights_eq in H by (rewrite Ec; cbn [length]; lia).
      discriminate H.
  - intros [Hc He]. subst e. unfold equalise_weights. rewrite Hc. reflexivity.
Qed.

Lemma schedule_exceeds_iff (np_sqrt : cell -> cell) (minimize : solver)
      (df_train df_test : DataFrame) :
  limit_exceeded (schedule np_sqrt minimize df_train df_test) = true <->
  some_weight_exceeds (schedule np_sqrt minimize df_train df_test).
Proof. apply limit_exceeded_iff. Qed.

(** X2.  [generate_portfolio] fails in exactly three ways: with
    [ZeroDivisionError] when the frames have no stock column; with
    [ValueError] when there is a stock column and the solver's result for
    some test period does not have one weight per stock; and with the limit
    exception when every period was solved and some weight of the finished
    schedule exceeds 0.101. *)
Theorem generate_portfolio_failures (np_sqrt : cell -> cell)
        (minimize : solver) (df_train df_test : DataFrame) (e : exn) :
  generate_portfolio np_sqrt minimize df_train df_test = Raise e <->
  (length (columns df_train) = 0 /\ e = ZeroDivisionError) \/
  (1 <= length (columns df_train) /\
   ~ Forall (well_shaped np_sqrt minimize (concat_returns df_train df_test)
                         (columns df_train)) (rows df_test) /\
   e = ValueError) \/
  (1 <= length (columns df_train) /\
   Forall (well_shaped np_sqrt minimize (concat_returns df_train df_test)
                       (columns df_train)) (rows df_test) /\
   some_weight_exceeds (schedule np_sqrt minimize df_train df_test) /\
   e = Exception limit_message).
Proof.
  unfold generate_portfolio.
  destruct (Nat.eq_dec (length (columns df_train)) 0) as [Hp | Hp].
  - rewrite (build_weights_no_stock np_sqrt minimize df_train df_test Hp).
    cbn [bind]. split.
    + intros H. inversion H. left. auto.
    + intros [[_ He] | [[Hp' _] | [Hp' _]]]; [ now subst e | lia | lia ].
  - assert (Hp' : 1 <= length (columns df_train)) by lia.
    destruct (shaped_dec np_sqrt minimize df_train df_test) as [Hall | Hnot].
    + rewrite (build_weights_Ok np_sqrt minimize df_train df_test Hp' Hall).
      cbn [bind]. unfold limit_check. cbn [snd].
      fold (schedule np_sqrt minimize df_train df_test).
      rewrite <- schedule_exceeds_iff.
      destruct (limit_exceeded (schedule np_sqrt minimize df_train df_test)).
      * split.
        -- intros H. inversion H. right. right. auto.
        -- intros [[Hz _] | [[_ [Hn _]] | [_ [_ [_ He]]]]];
             [ lia | contradiction | now subst e ].
      * split; [ discriminate | ].
        intros [[Hz _] | [[_ [Hn _]] | [_ [_ [Hex _]]]]];
          [ lia | contradiction | discriminate Hex ].
    + rewrite (build_weights_ill_shaped np_sqrt minimize df_train df_test
                                        Hp' Hnot).
      cbn [bind]. split.
      * intros H. inversion H. right. left. auto.
      * intros [[Hz _] | [[_ [_ He]] | [_ [Hall _]]]];
          [ lia | now subst e | contradiction ].
Qed.

(** ** The universe size and the 10% limit *)

Lemma one_over_small (p : nat) :
  1 <= p <= 9 -> exists q : Q, one_over p = Some q /\ (limit < q)%Q.
Proof.
  intros Hp. unfold one_over. eexists. split; [ reflexivity | ].
  do 10 (destruct p as [ | p ]; [ try lia; vm_compute; reflexivity | ]). lia.
Qed.

Lemma one_over_large (p : nat) :
  10 <= p -> exists q : Q, one_over p = Some q /\ (q <= 1 # 10)%Q.
Proof.
  intros Hp. unfold one_over. eexists. split; [ reflexivity | ].
  destruct (Z.of_nat p) as [ | z | z ] eqn:Ez; try lia.
  unfold Qle, Qdiv, Qmult, Qinv, inject_Z. cbn. lia.
Qed.

Lemma training_row_in_schedule (np_sqrt : cell -> cell) (minimize : solver)
      (df_train df_test : DataFrame) :
  rows df_train <> [] ->
  exists wr : WRow,
    In wr (w_rows (schedule np_sqrt minimize df_train df_test)) /\
    w_values wr = repeat (one_over (length (columns df_train)))
                         (length (columns df_train)).
Proof.
  intros Hne.
  assert (Hin : In (repeat (one_over (length (columns df_train)))
                           (length (columns df_train)))
                   (map w_values
                        (w_rows (schedule np_sqrt minimize df_train df_test)))).
  { unfold schedule. cbn [w_rows].
    rewrite rows_after_values, training_weights_values. apply in_or_app. left.
    destruct (rows df_train); [ contradiction | ]. cbn [length repeat]. now left. }
  apply in_map_iff in Hin. destruct Hin as [wr [Hv Hin]]. exists wr. auto.
Qed.

(** X3.  With one to nine stock columns and at least one training row the
    run cannot return: the equal weight [1/p] of the training rows is itself
    above 0.101, so when every period was solved the limit exception is
    raised, and otherwise the [ValueError] of the ill-shaped period. *)
Theorem small_universe_rejected (np_sqrt : cell -> cell) (minimize : solver)
        (df_train df_test : DataFrame) :
  1 <= length (columns df_train) <= 9 ->
  rows df_train <> [] ->
  generate_portfolio np_sqrt minimize df_train df_test
  = Raise (Exception limit_message) \/
  generate_portfolio np_sqrt minimize df_train df_test = Raise ValueError.
Proof.
  intros Hp Hne. unfold generate_portfolio.
  destruct (shaped_dec np_sqrt minimize df_train df_test) as [Hall | Hnot].
  - left.
    rewrite (build_weights_Ok np_sqrt minimize df_train df_test) by (lia || exact Hall).
    cbn [bind]. unfold limit_check. cbn [snd].
    fold (schedule np_sqrt minimize df_train df_test).
    assert (Hex : some_weight_exceeds (schedule np_sqrt minimize df_train df_test)).
    { destruct (training_row_in_schedule np_sqrt minimize df_train df_test Hne)
        as [wr [Hin Hv]].
      destruct (one_over_small _ Hp) as [q [Hq Hlt]].
      exists wr, q. split; [ exact Hin | ]. split; [ | exact Hlt ].
      rewrite Hv, Hq.
      destruct (length (columns df_train)); [ lia | ]. now left. }
    apply schedule_exceeds_iff in Hex. rewrite Hex. reflexivity.
  - right.
    rewrite (build_weights_ill_shaped np_sqrt minimize df_train df_test)
      by (lia || exact Hnot).
    reflexivity.
Qed.

Lemma small_universe_rejected_witness :
  generate_portfolio rational_sqrt settled_solver small_returns small_test
  = Raise (Exception limit_message) \/
  generate_portfolio rational_sqrt settled_solver small_returns small_test
  = Raise ValueError.
Proof.
  apply (small_universe_rejected rational_sqrt settled_solver small_returns
                                 small_test).
  - cbn. lia.
  - discriminate.
Defined.

Lemma schedule_exceeds_inv (np_sqrt : cell -> cell) (minimize : solver)
      (df_train df_test : DataFrame) :
  10 <= length (columns df_train) ->
  some_weight_exceeds (schedule np_sqrt minimize df_train df_test) ->
  exists (t : Row) (q : Q),
    In t (rows df_test) /\
    In (Some q)
       (OptimizeResult.x
          (solve_period np_sqrt minimize (concat_returns df_train df_test)
                        (columns df_train) (month_end t))) /\
    (limit < q)%Q.
Proof.
  intros Hp [wr [q [Hin [Hq Hlt]]]].
  assert (Hv : In (w_values wr)
                  (map w_values
                       (w_rows (schedule np_sqrt minimize df_train df_test))))
    by (apply in_map; exact Hin).
  unfold schedule in Hv. cbn [w_rows] in Hv.
  rewrite rows_after_values, training_weights_values in Hv.
  apply in_app_or in Hv. destruct Hv as [Hv | Hv].
  - apply repeat_spec in Hv. rewrite Hv in Hq. apply repeat_spec in Hq.
    destruct (one_over_large _ Hp) as [q' [Hq' Hle]].
    rewrite Hq' in Hq. injection Hq as Hq. subst q'.
    exfalso. unfold limit in Hlt. lra.
  - apply in_map_iff in Hv. destruct Hv as [t [Ht Hin']].
    exists t, q. split; [ exact Hin' | ]. split; [ | exact Hlt ].
    unfold optimized_row in Ht. cbn [w_values] in Ht. rewrite Ht. exact Hq.
Qed.

(** X4.  With ten or more stock columns the equal weights of the training
    rows are within the limit, so a limit exception always comes from a test
    period: some weight the solver returned for some test row is above
    0.101. *)
Theorem limit_exception_from_solver (np_sqrt : cell -> cell)
        (minimize : solver) (df_train df_test : DataFrame) :
  10 <= length (columns df_train) ->
  generate_portfolio np_sqrt minimize df_train df_test
  = Raise (Exception limit_message) ->
  exists (t : Row) (q : Q),
    In t (rows df_test) /\
    In (Some q)
       (OptimizeResult.x
          (solve_period np_sqrt minimize (concat_returns df_train df_test)
                        (columns df_train) (month_end t))) /\
    (limit < q)%Q.
Proof.
  intros Hp H. unfold generate_portfolio in H.
  destruct (build_weights np_sqrt minimize df_train df_test)
    as [[r w] | e] eqn:Hb; cbn [bind] in H.
  - apply build_weights_inv in Hb. destruct Hb as [_ [_ [_ Hw]]].
    unfold limit_check in H. cbn [snd] in H.
    destruct (limit_exceeded w) eqn:E; [ | discriminate H ].
    apply limit_exceeded_iff in E. subst w.
    apply (schedule_exceeds_inv np_sqrt minimize df_train df_test Hp E).
  - apply build_weights_never_limit in Hb. inversion H; subst.
    destruct Hb; discriminate.
Qed.

Lemma limit_exception_from_solver_witness :
  exists (t : Row) (q : Q),
    In t (rows test_two) /\
    In (Some q)
       (OptimizeResult.x
          (solve_period rational_sqrt greedy_solver
                        (concat_returns train_two test_two)
                        ten_stocks (month_end t))) /\
    (limit < q)%Q.
Proof.
  apply (limit_exception_from_solver rational_sqrt greedy_solver train_two
                                     test_two).
  - cbn. lia.
  - vm_compute. reflexivity.
Defined.

(** ** What the returned schedule carries *)

(** X5.  When there is at least one test period, the schedule that
    [generate_portfolio] returns has lost the dates of the training rows:
    every row is labelled by position, and the [month_end] column is NaN on
    the training rows; the frame returned beside it is the training frame
    followed by the test frame. *)
Theorem training_dates_dropped (np_sqrt : cell -> cell) (minimize : solver)
        (df_train df_test r : DataFrame) (w : WeightFrame) :
  generate_portfolio np_sqrt minimize df_train df_test = Ok (r, w) ->
  rows df_test <> [] ->
  r = concat_returns df_train df_test /\
  Forall (fun wr => w_index wr = None) (w_rows w) /\
  map w_month_end (firstn (length (rows df_train)) (w_rows w)) =
  repeat None (length (rows df_train)).
Proof.
  intros H Hne. apply generate_portfolio_Ok_inv in H. destruct H as [Hb _].
  apply build_weights_inv in Hb. destruct Hb as [_ [_ [Hr Hw]]].
  split; [ exact Hr | ]. subst w. cbn [w_rows].
  destruct (rows df_test) as [ | t rest ]; [ contradiction | ].
  cbn [rows_after]. unfold training_weights. cbn [w_rows]. split.
  - apply Forall_app. split; apply Forall_forall; intros wr Hin;
      apply in_map_iff in Hin; destruct Hin as [y [Hy _]]; subst wr;
      reflexivity.
  - rewrite firstn_app, !length_map, Nat.sub_diag, firstn_O, app_nil_r.
    rewrite firstn_all2 by (rewrite !length_map; lia).
    rewrite !map_map. cbn [drop_index w_month_end]. apply map_const_repeat.
Qed.

Lemma training_dates_dropped_witness :
  exists (r : DataFrame) (w : WeightFrame),
    generate_portfolio rational_sqrt settled_solver train_two test_two
    = Ok (r, w) /\
    r = concat_returns train_two test_two /\
    Forall (fun wr => w_index wr = None) (w_rows w) /\
    map w_month_end (firstn 2 (w_rows w)) = [None; None].
Proof.
  eexists. eexists. split.
  - vm_compute. reflexivity.
  - eapply (training_dates_dropped rational_sqrt settled_solver train_two
                                   test_two).
    + vm_compute. reflexivity.
    + discriminate.
Defined.

Lemma training_weights_within (df_train : DataFrame) (wr : WRow) (q : Q) :
  10 <= length (columns df_train) ->
  In wr (w_rows (training_weights df_train)) ->
  In (Some q) (w_values wr) ->
  (q <= 1 # 10)%Q.
Proof.
  intros Hp Hin Hq. unfold training_weights in Hin. cbn [w_rows] in Hin.
  apply in_map_iff in Hin. destruct Hin as [r [Hr _]]. subst wr.
  cbn [w_values] in Hq. apply repeat_spec in Hq.
  destruct (one_over_large _ Hp) as [q' [Hq' Hle]].
  rewrite Hq' in Hq. injection Hq as Hq. now subst q'.
Qed.

(** X6.  Without a test row and with ten or more stock columns, the solver
    is never consulted: whatever the solver, [generate_portfolio] returns the
    training frame and exactly the frame [equalise_weights] gives for it,
    still labelled by the training dates. *)
Theorem no_test_period (np_sqrt : cell -> cell) (minimize : solver)
        (df_train df_test : DataFrame) :
  rows df_test = [] ->
  10 <= length (columns df_train) ->
  equalise_weights df_train = Ok (training_weights df_train) /\
  generate_portfolio np_sqrt minimize df_train df_test =
  Ok ({| columns := columns df_train; rows := rows df_train |},
      training_weights df_train) /\
  map w_index (w_rows (training_weights df_train)) =
  map (fun r => Some (month_end r)) (rows df_train).
Proof.
  intros Hno Hp. split; [ | split ].
  - rewrite equalise_weights_eq by lia. reflexivity.
  - unfold generate_portfolio.
    rewrite (build_weights_Ok np_sqrt minimize df_train df_test)
      by (lia || (rewrite Hno; constructor)).
    cbn [bind]. unfold limit_check. cbn [snd]. rewrite Hno. cbn [rows_after].
    unfold concat_returns. rewrite Hno, app_nil_r.
    change {| w_columns := columns df_train;
              w_rows := w_rows (training_weights df_train) |}
      with (training_weights df_train).
    destruct (limit_exceeded (training_weights df_train)) eqn:E;
      [ | reflexivity ].
    apply limit_exceeded_iff in E. destruct E as [wr [q [Hin [Hq Hlt]]]].
    pose proof (training_weights_within df_train wr q Hp Hin Hq) as Hle.
    exfalso. unfold limit in Hlt. lra.
  - unfold training_weights. cbn [w_rows]. rewrite map_map. reflexivity.
Qed.

Lemma no_test_period_witness :
  equalise_weights train_two = Ok (training_weights train_two) /\
  generate_portfolio rational_sqrt greedy_solver train_two no_test =
  Ok ({| columns := ten_stocks; rows := rows train_two |},
      training_weights train_two) /\
  map w_index (w_rows (training_weights train_two)) = [Some 31%Z; Some 59%Z].
Proof.
  apply (no_test_period rational_sqrt greedy_solver train_two no_test).
  - reflexivity.
  - cbn. lia.
Defined.

(** ** What the limit check lets through *)

(** X7.  The 10% check is the only validation of the weights.  With ten or
    more stock columns, if every test period's result has one weight per
    stock and each of these weights is NaN or a number not above 0.101, the
    run returns the schedule as built: weights that are NaN, negative, or do
    not sum to 1 are returned like any others. *)
Theorem weights_not_otherwise_validated (np_sqrt : cell -> cell)
        (minimize : solver) (df_train df_test : DataFrame) :
  10 <= length (columns df_train) ->
  Forall (fun t =>
            well_shaped np_sqrt minimize (concat_returns df_train df_test)
                        (columns df_train) t /\
            Forall within_limit
                   (OptimizeResult.x
                      (solve_period np_sqrt minimize
                                    (concat_returns df_train df_test)
                                    (columns df_train) (month_end t))))
         (rows df_test) ->
  generate_portfolio np_sqrt minimize df_train df_test =
  Ok (concat_returns df_train df_test,
      schedule np_sqrt minimize df_train df_test).
Proof.
  intros Hp Hall. unfold generate_portfolio.
  rewrite (build_weights_Ok np_sqrt minimize df_train df_test).
  - cbn [bind]. unfold limit_check. cbn [snd].
    fold (schedule np_sqrt minimize df_train df_test).
    destruct (limit_exceeded (schedule np_sqrt minimize df_train df_test))
      eqn:E; [ | reflexivity ].
    apply limit_exceeded_iff in E.
    destruct (schedule_exceeds_inv np_sqrt minimize df_train df_test Hp E)
      as [t [q [Ht [Hq Hlt]]]].
    rewrite Forall_forall in Hall. destruct (Hall t Ht) as [_ Hw].
    rewrite Forall_forall in Hw. specialize (Hw _ Hq). cbn in Hw.
    exfalso. lra.
  - lia.
  - eapply Forall_impl; [ | exact Hall ]. intros t [H _]. exact H.
Qed.

Lemma weights_not_otherwise_validated_witness :
  generate_portfolio rational_sqrt nan_solver train_two test_two =
  Ok (concat_returns train_two test_two,
      schedule rational_sqrt nan_solver train_two test_two) /\
  map w_values
      (skipn 2 (w_rows (schedule rational_sqrt nan_solver train_two test_two)))
  = [repeat NaN 10; repeat NaN 10].
Proof.
  split.
  - apply (weights_not_otherwise_validated rational_sqrt nan_solver train_two
                                           test_two).
    + cbn. lia.
    + repeat constructor.
  - reflexivity.
Defined.

(** ** The constraints and the start point of the solver call *)

Lemma Qsum_repeat (c : Q) (n : nat) :
  (Qsum (repeat c n) == c * inject_Z (Z.of_nat n))%Q.
Proof.
  induction n as [ | n IH ].
  - cbn. ring.
  - cbn [repeat Qsum fold_right]. fold (Qsum (repeat c n)).
    rewrite IH, Nat2Z.inj_succ, <- Z.add_1_l, inject_Z_plus. ring.
Qed.

Lemma inject_Z_ten (p : nat) :
  (1 <= (1 # 10) * inject_Z (Z.of_nat p))%Q -> 10 <= p.
Proof.
  unfold Qle, Qmult, inject_Z. cbn [Qnum Qden]. intros H. lia.
Qed.

Lemma np_ones_div_numbers (p : nat) :
  1 <= p ->
  np_ones_div p = map Some (repeat (1 / inject_Z (Z.of_nat p))%Q p).
Proof.
  intros Hp. unfold np_ones_div, num, fdiv. rewrite map_repeat.
  destruct (Qeq_bool (inject_Z (Z.of_nat p)) 0) eqn:E; [ | reflexivity ].
  apply Qeq_bool_iff in E. unfold Qeq, inject_Z in E. cbn in E. lia.
Qed.

(** X8.  The bounds and constraints the code passes to the solver admit a
    point exactly when it has one number per stock, each between 0 and 0.10,
    summing to 1: the upper bound 1 never binds, and a NaN coordinate is
    never admitted. *)
Theorem constraints_as_passed (n : nat) (w : list cell) :
  feasible n w = true <->
  length w = n /\
  Forall (fun c => exists q : Q, c = Some q /\ (0 <= q)%Q /\ (q <= 1 # 10)%Q) w /\
  cell_eq (np_sum w) (Some 1%Q).
Proof.
  rewrite feasible_iff. split.
  - intros [qs [Hw [Hlen [Hsum Hall]]]]. subst w.
    rewrite length_map, np_sum_numbers. split; [ exact Hlen | ]. split.
    + rewrite Forall_map. eapply Forall_impl; [ | exact Hall ].
      intros q [H0 [_ H1]]. exists q. auto.
    + exact Hsum.
  - intros [Hlen [Hall Hsum]].
    assert (Hqs : exists qs : list Q,
               w = map Some qs /\
               Forall (fun q => (0 <= q)%Q /\ (q <= 1 # 10)%Q) qs).
    { clear Hlen Hsum. induction Hall as [ | c w [q [Hc Hq]] _ [qs [Hw Hqs]] ].
      - exists []. split; [ reflexivity | constructor ].
      - subst c w. exists (q :: qs). split; [ reflexivity | ].
        constructor; assumption. }
    destruct Hqs as [qs [Hw Hqs]]. subst w.
    rewrite length_map in Hlen. rewrite np_sum_numbers in Hsum.
    exists qs. split; [ reflexivity | ]. split; [ exact Hlen | ].
    split; [ exact Hsum | ].
    eapply Forall_impl; [ | exact Hqs ]. intros q [H0 H1].
    repeat split; try assumption. apply (Qle_trans _ (1 # 10)); [ exact H1 | ].
    discriminate.
Qed.

(** X9.  The start point [np.ones(p) / p] that the code gives the solver
    satisfies the constraints exactly when there are ten or more stocks; with
    fewer than ten no point at all satisfies them; and with exactly ten the
    start point, 0.10 in every stock, is the only one that does. *)
Theorem feasible_needs_ten_stocks (p : nat) :
  (feasible p (np_ones_div p) = true <-> 10 <= p) /\
  ((exists w : list cell, feasible p w = true) -> 10 <= p) /\
  (forall w : list cell,
      feasible 10 w = true -> Forall2 cell_eq w (repeat (Some (1 # 10)) 10)).
Proof.
  assert (Hany : forall w : list cell, feasible p w = true -> 10 <= p).
  { intros w Hw. apply feasible_iff in Hw.
    destruct Hw as [qs [_ [Hlen [Hsum Hall]]]].
    assert (Hcap : Forall (fun q => (q <= 1 # 10)%Q) qs).
    { eapply Forall_impl; [ | exact Hall ]. intros q [_ [_ H]]. exact H. }
    pose proof (capped_sum_le _ _ Hcap) as Hle.
    unfold Qcount in Hle. rewrite Hlen, Hsum in Hle.
    apply inject_Z_ten. exact Hle. }
  split; [ split | split ].
  - apply Hany.
  - intros Hp. apply feasible_iff.
    exists (repeat (1 / inject_Z (Z.of_nat p))%Q p).
    split; [ apply np_ones_div_numbers; lia | ].
    split; [ apply repeat_length | ].
    destruct (one_over_large p Hp) as [q [Hq Hle]].
    unfold one_over in Hq. injection Hq as Hq. rewrite Hq.
    assert (Hpos : (0 < q)%Q).
    { subst q. destruct (Z.of_nat p) as [ | z | z ] eqn:Ez; try lia.
      unfold Qlt, Qdiv, Qmult, Qinv, inject_Z. cbn. lia. }
    split.
    + rewrite Qsum_repeat. subst q. field.
      intros H0. unfold Qeq, inject_Z in H0. cbn in H0. lia.
    + apply Forall_forall. intros x Hx. apply repeat_spec in Hx. subst x.
      repeat split; lra.
  - intros [w Hw]. exact (Hany w Hw).
  - intros w Hw. apply feasible_iff in Hw.
    destruct Hw as [qs [Hqs [Hlen [Hsum Hall]]]]. subst w.
    assert (Hcap : Forall (fun q => (q <= 1 # 10)%Q) qs).
    { eapply Forall_impl; [ | exact Hall ]. intros q [_ [_ H]]. exact H. }
    assert (Hfull : (Qsum qs == (1 # 10) * Qcount qs)%Q).
    { unfold Qcount. rewrite Hlen, Hsum. reflexivity. }
    pose proof (constant_weights _ _ (capped_sum_eq _ _ Hcap Hfull)) as H.
    rewrite Hlen in H. exact H.
Qed.

(** ** The value of the objective *)



Lemma np_sum_nan (v : list cell) : In NaN v -> np_sum v = NaN.
Proof.
  unfold np_sum. induction v as [ | c v IH ]; intros Hin; [ contradiction | ].
  cbn [fold_right]. destruct Hin as [Hc | Hin].
  - subst c. reflexivity.
  - rewrite (IH Hin). destruct c; reflexivity.
Qed.

Lemma np_dot_nan (u : list cell) :
  forall (v : list cell) (j : nat),
    j < length u -> nth_error v j = Some NaN -> np_dot u v = NaN.
Proof.
  unfold np_dot. intros v j Hj Hv. apply np_sum_nan.
  revert v j Hj Hv. induction u as [ | a u IH ]; intros v j Hj Hv.
  - cbn [length] in Hj. lia.
  - destruct v as [ | b v ]; [ destruct j; discriminate Hv | ].
    destruct j as [ | j ]; cbn [nth_error zip_with] in *.
    + injection Hv as Hb. subst b. left. destruct a; reflexivity.
    + right. apply (IH v j); [ cbn [length] in Hj; lia | exact Hv ].
Qed.

Lemma nth_error_map_seq {A : Type} (f : nat -> A) (p j : nat) :
  j < p -> nth_error (map f (seq 0 p)) j = Some (f j).
Proof.
  intros Hj. rewrite nth_error_map.
  rewrite (nth_error_nth' (seq 0 p) 0) by (rewrite length_seq; exact Hj).
  rewrite seq_nth by exact Hj. reflexivity.
Qed.

(** X11.  A stock without a single observation dated before the period has
    a NaN expected return, and then the objective handed to the solver is
    NaN at every point that has a coordinate for that stock: the solver is
    called on an objective that tells it nothing. *)
Theorem objective_nan_without_history (np_sqrt : cell -> cell)
        (df_returns : DataFrame) (d : date) (j : nat) (w : list cell) :
  j < length (columns df_returns) ->
  dropna (column j (select_before df_returns d)) = [] ->
  j < length w ->
  nth_error (fst (estimate df_returns d)) j = Some NaN /\
  sharpe_ratio np_sqrt w (fst (estimate df_returns d))
               (snd (estimate df_returns d)) = NaN.
Proof.
  intros Hj Hnone Hw.
  assert (Hmu : nth_error (fst (estimate df_returns d)) j = Some NaN).
  { unfold estimate, df_mean. cbn [fst select_before columns].
    rewrite nth_error_map_seq by exact Hj.
    unfold series_mean. fold (select_before df_returns d).
    rewrite Hnone. reflexivity. }
  split; [ exact Hmu | ].
  unfold sharpe_ratio. rewrite (np_dot_nan w _ j Hw Hmu). reflexivity.
Qed.

Lemma objective_nan_without_history_witness :
  nth_error (fst (estimate small_returns 59%Z)) 2 = Some NaN /\
  sharpe_ratio rational_sqrt [Some (1 # 3); Some (1 # 3); Some (1 # 3)]
               (fst (estimate small_returns 59%Z))
               (snd (estimate small_returns 59%Z)) = NaN.
Proof.
  apply (objective_nan_without_history
           rational_sqrt small_returns 59%Z 2
           [Some (1 # 3); Some (1 # 3); Some (1 # 3)]).
  - cbn. lia.
  - reflexivity.
  - cbn. lia.
Defined.

(** ** The covariance estimate *)

Lemma pairwise_complete_swap (a : list cell) :
  forall b : list cell,
    pairwise_complete b a =
    map (fun p => (snd p, fst p)) (pairwise_complete a b).
Proof.
  induction a as [ | u a IH ]; intros [ | v b ].
  - reflexivity.
  - destruct v; reflexivity.
  - destruct u; reflexivity.
  - destruct u as [x | ], v as [y | ]; cbn [pairwise_complete map fst snd];
      rewrite IH; reflexivity.
Qed.

Lemma Qsum_ext {A : Type} (f g : A -> Q) (l : list A) :
  (forall a : A, (f a == g a)%Q) -> (Qsum (map f l) == Qsum (map g l))%Q.
Proof.
  intros H. induction l as [ | a l IH ]; [ reflexivity | ].
  cbn [map Qsum fold_right]. fold (Qsum (map f l)). fold (Qsum (map g l)).
  rewrite IH, (H a). reflexivity.
Qed.

Lemma Qcov_swap (ps : list (Q * Q)) :
  (Qcov (map (fun p => (snd p, fst p)) ps) == Qcov ps)%Q.
Proof.
  unfold Qcov. rewrite !map_map. cbn [fst snd].
  unfold Qcount. rewrite length_map.
  apply Qmult_comp; [ | reflexivity ].
  apply Qsum_ext. intros p.
  change (map (fun x : Q * Q => snd x) ps) with (map snd ps).
  change (map (fun x : Q * Q => fst x) ps) with (map fst ps).
  ring.
Qed.

Lemma series_cov_sym (a b : list cell) :
  cell_eq (series_cov a b) (series_cov b a).
Proof.
  unfold series_cov. rewrite (pairwise_complete_swap a b), length_map.
  destruct (length (pairwise_complete a b) <? 2); [ exact I | ].
  cbn [cell_eq]. symmetry. apply Qcov_swap.
Qed.

Lemma pairwise_complete_diag (a : list cell) :
  pairwise_complete a a = map (fun v => (v, v)) (dropna a).
Proof.
  induction a as [ | [v | ] a IH ]; cbn [pairwise_complete dropna map];
    [ reflexivity | now rewrite IH | exact IH ].
Qed.

Lemma Qsquare_nonneg (x : Q) : (0 <= x * x)%Q.
Proof.
  unfold Qle, Qmult. cbn [Qnum Qden]. rewrite Z.mul_0_l, Z.mul_1_r.
  apply Z.square_nonneg.
Qed.

Lemma Qsum_squares_nonneg (m : Q) (l : list Q) :
  (0 <= Qsum (map (fun v => (v - m) * (v - m)) l))%Q.
Proof.
  induction l as [ | v l IH ]; [ discriminate | ].
  cbn [map Qsum fold_right].
  fold (Qsum (map (fun v => (v - m) * (v - m))%Q l)).
  pose proof (Qsquare_nonneg (v - m)) as Hsq.
  lra.
Qed.

Lemma Qcov_diag_nonneg (l : list Q) :
  (0 < Qcount l - 1)%Q -> (0 <= Qcov (map (fun v => (v, v)) l))%Q.
Proof.
  intros Hn. unfold Qcov. rewrite !map_map. cbn [fst snd].
  rewrite Qcount_map.
  apply Qle_shift_div_l; [ exact Hn | ].
  rewrite Qmult_0_l. apply Qsum_squares_nonneg.
Qed.

Lemma series_variance_nonneg (a : list cell) (v : Q) :
  series_cov a a = Some v -> (0 <= v)%Q.
Proof.
  unfold series_cov. rewrite pairwise_complete_diag, length_map.
  destruct (dropna a) as [ | x [ | y l ] ] eqn:E; try discriminate.
  change (length (x :: y :: l) <? 2) with false. cbv iota.
  intros H. injection H as H. subst v.
  change ((x, x) :: (y, y) :: map (fun v : Q => (v, v)) l)
    with (map (fun v : Q => (v, v)) (x :: y :: l)).
  apply Qcov_diag_nonneg.
  unfold Qcount. cbn [length].
  rewrite !Nat2Z.inj_succ. unfold Z.succ. rewrite !inject_Z_plus.
  assert (H0 : (0 <= inject_Z (Z.of_nat (length l)))%Q).
  { unfold Qle, inject_Z. cbn [Qnum Qden]. lia. }
  change (inject_Z 1) with 1%Q. lra.
Qed.

Lemma nth_map_seq {A : Type} (f : nat -> A) (p j : nat) (d : A) :
  j < p -> nth j (map f (seq 0 p)) d = f j.
Proof.
  intros Hj. apply nth_error_nth. apply nth_error_map_seq. exact Hj.
Qed.

Lemma df_cov_entry (df : DataFrame) (i j : nat) :
  i < length (columns df) -> j < length (columns df) ->
  nth j (nth i (df_cov df) []) NaN = series_cov (column i df) (column j df).
Proof.
  intros Hi Hj. unfold df_cov.
  rewrite (nth_map_seq _ _ i [] Hi).
  apply (nth_map_seq (fun k => series_cov (column i df) (column k df))).
  exact Hj.
Qed.

(** X12.  The covariance matrix estimated for a period is symmetric, NaN
    entries included, and an entry of its diagonal that is a number is not
    negative, whatever cells of the history are missing. *)
Theorem covariance_symmetric (df_returns : DataFrame) (d : date) (i j : nat) :
  i < length (columns df_returns) ->
  j < length (columns df_returns) ->
  let sigma := snd (estimate df_returns d) in
  cell_eq (nth j (nth i sigma []) NaN) (nth i (nth j sigma []) NaN) /\
  (forall v : Q, nth i (nth i sigma []) NaN = Some v -> (0 <= v)%Q).
Proof.
  intros Hi Hj sigma. unfold sigma, estimate. cbn [snd].
  rewrite !df_cov_entry by assumption. split.
  - apply series_cov_sym.
  - apply series_variance_nonneg.
Qed.

Lemma covariance_symmetric_witness :
  cell_eq (nth 2 (nth 0 (snd (estimate small_returns 100%Z)) []) NaN)
          (nth 0 (nth 2 (snd (estimate small_returns 100%Z)) []) NaN) /\
  (forall v : Q,
      nth 0 (nth 0 (snd (estimate small_returns 100%Z)) []) NaN = Some v ->
      (0 <= v)%Q).
Proof.
  apply (covariance_symmetric small_returns 100%Z 0 2); cbn; lia.
Defined.

(** ** The history of a period under ordered dates *)

Lemma increasing_cons (l : list date) :
  forall d : date,
    increasing (d :: l) = true ->
    Forall (fun x => (d < x)%Z) l /\ increasing l = true.
Proof.
  induction l as [ | e l IH ]; intros d H.
  - split; [ constructor | reflexivity ].
  - cbn [increasing] in H. apply andb_true_iff in H. destruct H as [Hde H].
    apply Z.ltb_lt in Hde. destruct (IH e H) as [Hall Hinc].
    split; [ | exact H ].
    constructor; [ exact Hde | ].
    eapply Forall_impl; [ | exact Hall ]. intros x Hx. cbn in Hx. lia.
Qed.

Lemma filter_none {A : Type} (f : A -> bool) (l : list A) :
  Forall (fun x => f x = false) l -> filter f l = [].
Proof.
  induction 1 as [ | x l Hx _ IH ]; [ reflexivity | ].
  cbn [filter]. now rewrite Hx.
Qed.

Lemma filter_idem {A : Type} (f : A -> bool) (l : list A) :
  filter f (filter f l) = filter f l.
Proof.
  induction l as [ | x l IH ]; [ reflexivity | ].
  cbn [filter]. destruct (f x) eqn:E; [ | exact IH ].
  cbn [filter]. now rewrite E, IH.
Qed.

(** In a frame of increasing dates, the rows dated before the row at
    position [k] are the [k] rows above it. *)
Lemma rows_before_position (l : list Row) :
  forall (k : nat) (r : Row),
    increasing (map month_end l) = true ->
    nth_error l k = Some r ->
    filter (fun x => (month_end x <? month_end r)%Z) l = firstn k l.
Proof.
  induction l as [ | a l IH ]; intros k r Hinc Hk.
  - destruct k; discriminate Hk.
  - cbn [map] in Hinc. destruct (increasing_cons _ _ Hinc) as [Hall Hinc'].
    rewrite Forall_map in Hall. destruct k as [ | k ]; cbn [nth_error] in Hk.
    + injection Hk as Hk. subst a. cbn [filter firstn].
      rewrite Z.ltb_irrefl. apply filter_none.
      eapply Forall_impl; [ | exact Hall ]. intros x Hx. cbn in Hx.
      apply Z.ltb_ge. lia.
    + cbn [filter firstn].
      assert (Har : (month_end a < month_end r)%Z).
      { rewrite Forall_forall in Hall. apply Hall.
        apply (nth_error_In _ _ Hk). }
      apply Z.ltb_lt in Har. rewrite Har. f_equal. apply IH; assumption.
Qed.

Lemma history_of_test_row (df_train df_test : DataFrame) (i : nat) (t : Row) :
  walk_forward_ordered df_train df_test = true ->
  nth_error (rows df_test) i = Some t ->
  filter (fun x => (month_end x <? month_end t)%Z)
         (rows df_train ++ rows df_test)
  = rows df_train ++ firstn i (rows df_test).
Proof.
  unfold walk_forward_ordered. rewrite <- map_app. intros Hinc Hi.
  rewrite (rows_before_position _ (length (rows df_train) + i) t Hinc).
  - rewrite firstn_app_2. reflexivity.
  - rewrite nth_error_app2 by lia.
    replace (length (rows df_train) + i - length (rows df_train)) with i by lia.
    exact Hi.
Qed.

(** X13.  When the dates increase strictly through the training frame and
    on through the test frame, the history used for the i-th test period is
    the whole training frame followed by the i test rows before it: the
    window grows by one row per period and never holds the period itself. *)
Theorem history_is_expanding_window (df_train df_test : DataFrame)
        (i : nat) (t : Row) :
  walk_forward_ordered df_train df_test = true ->
  nth_error (rows df_test) i = Some t ->
  rows (select_before (concat_returns df_train df_test) (month_end t))
  = rows df_train ++ firstn i (rows df_test) /\
  length (rows (select_before (concat_returns df_train df_test) (month_end t)))
  = length (rows df_train) + i.
Proof.
  intros Hord Hi. unfold select_before, concat_returns. cbn [rows].
  rewrite (history_of_test_row df_train df_test i t Hord Hi).
  split; [ reflexivity | ].
  rewrite length_app, length_firstn.
  assert (Hlt : i < length (rows df_test))
    by (apply nth_error_Some; congruence).
  lia.
Qed.

Lemma history_is_expanding_window_witness :
  rows (select_before (concat_returns train_two test_two) 120%Z)
  = rows train_two ++ firstn 1 (rows test_two) /\
  length (rows (select_before (concat_returns train_two test_two) 120%Z))
  = 2 + 1.
Proof.
  apply (history_is_expanding_window
           train_two test_two 1
           (month 120 [4; -2; 1; 0; 3; 3; 1; 6; -1; 2]%Z)); reflexivity.
Defined.

(** X14.  Under the same order of the dates, the solver call of the i-th
    test period is the call the code would make had the test frame ended
    just before that period: the weights of a period do not depend on the
    returns of that period or of any later one. *)
Theorem weights_ignore_later_rows (np_sqrt : cell -> cell) (minimize : solver)
        (df_train df_test : DataFrame) (i : nat) (t : Row) :
  walk_forward_ordered df_train df_test = true ->
  nth_error (rows df_test) i = Some t ->
  solve_period np_sqrt minimize (concat_returns df_train df_test)
               (columns df_train) (month_end t)
  = solve_period np_sqrt minimize
                 (concat_returns df_train (head_rows df_test i))
                 (columns df_train) (month_end t).
Proof.
  intros Hord Hi. unfold solve_period.
  assert (Hsame : select_before (concat_returns df_train df_test) (month_end t)
                  = select_before
                      (concat_returns df_train (head_rows df_test i))
                      (month_end t)).
  { unfold select_before, concat_returns, head_rows. cbn [rows columns].
    f_equal.
    rewrite <- (history_of_test_row df_train df_test i t Hord Hi).
    symmetry. apply filter_idem. }
  rewrite Hsame. reflexivity.
Qed.

Lemma weights_ignore_later_rows_witness :
  solve_period rational_sqrt probing_solver (concat_returns train_two test_two)
               ten_stocks 90%Z
  = solve_period rational_sqrt probing_solver
                 (concat_returns train_two (head_rows test_two 0))
                 ten_stocks 90%Z.
Proof.
  apply (weights_ignore_later_rows
           rational_sqrt probing_solver train_two test_two 0
           (month 90 [0; 1; 1; 2; -3; 5; 8; 1; 2; 1]%Z)); reflexivity.
Defined.

Lemma filter_filter_implies {A : Type} (f g : A -> bool) (l : list A) :
  (forall x : A, f x = true -> g x = true) ->
  filter f (filter g l) = filter f l.
Proof.
  intros Himp. induction l as [ | x l IH ]; [ reflexivity | ].
  cbn [filter]. destruct (g x) eqn:Eg.
  - cbn [filter]. now rewrite IH.
  - destruct (f x) eqn:Ef; [ | exact IH ].
    rewrite (Himp x Ef) in Eg. discriminate Eg.
Qed.

(** X21.  Whatever the order of the dates in the frame, the history of an
    earlier date is contained in the history of a later one: it is what the
    same selection keeps of the later history. *)
Theorem history_grows_with_date (df_returns : DataFrame) (d d' : date) :
  (d <= d')%Z ->
  select_before (select_before df_returns d') d = select_before df_returns d /\
  length (rows (select_before df_returns d))
  <= length (rows (select_before df_returns d')).
Proof.
  intros Hd. split.
  - unfold select_before. cbn [columns rows]. f_equal.
    apply filter_filter_implies. intros x Hx.
    apply Z.ltb_lt in Hx. apply Z.ltb_lt. lia.
  - unfold select_before. cbn [rows].
    rewrite <- (filter_filter_implies
                  (fun r => (month_end r <? d)%Z)
                  (fun r => (month_end r <? d')%Z) (rows df_returns)).
    + apply filter_length_le.
    + intros x Hx. apply Z.ltb_lt in Hx. apply Z.ltb_lt. lia.
Qed.

Lemma history_grows_with_date_witness :
  select_before (select_before train_unordered 100%Z) 60%Z
  = select_before train_unordered 60%Z /\
  length (rows (select_before train_unordered 60%Z))
  <= length (rows (select_before train_unordered 100%Z)).
Proof.
  apply (history_grows_with_date train_unordered 60%Z 100%Z). lia.
Defined.

(** ** [plot_total_return] on any weights *)

Lemma np_mul2d_cases (a b c : list (list cell)) :
  np_mul2d a b = Ok c ->
  (length c = length b /\ (length a = length b \/ length a = 1)) \/
  (length b = 1 /\ length c = length a).
Proof.
  unfold np_mul2d. destruct (Nat.eqb_spec (length a) (length b)) as [E | E].
  - intros H. injection H as H. subst c. left.
    rewrite zip_with_length by exact E. split; [ exact E | left; exact E ].
  - destruct a as [ | ra [ | ra' a ] ].
    + destruct b as [ | rb [ | rb' b ] ]; try discriminate.
      intros H. injection H as H. subst c. right. split; reflexivity.
    + intros H. injection H as H. subst c. left.
      rewrite length_map. split; [ reflexivity | right; reflexivity ].
    + destruct b as [ | rb [ | rb' b ] ]; try discriminate.
      intros H. injection H as H. subst c. right.
      cbn [length]. rewrite length_map. split; reflexivity.
Qed.

Lemma np_mul2d_error (a b : list (list cell)) (e : exn) :
  np_mul2d a b = Raise e -> e = ValueError.
Proof.
  unfold np_mul2d. destruct (length a =? length b); [ discriminate | ].
  destruct a as [ | ra [ | ra' a ] ]; destruct b as [ | rb [ | rb' b ] ];
    try discriminate; intros H; now inversion H.
Qed.

Lemma assign_column_Ok (n : nat) (v c : list cell) :
  assign_column n v = Ok c -> c = v /\ length v = n.
Proof.
  unfold assign_column. destruct (Nat.eqb_spec (length v) n) as [E | E];
    [ | discriminate ].
  intros H. injection H as H. auto.
Qed.

Lemma assign_column_error (n : nat) (v : list cell) (e : exn) :
  assign_column n v = Raise e -> e = ValueError.
Proof.
  unfold assign_column. destruct (length v =? n); [ discriminate | ].
  intros H. now inversion H.
Qed.

Lemma zip_rows_columns (d : list date) :
  forall vi vp : list cell,
    length vi = length d -> length vp = length d ->
    map rtn_month_end (zip_rows d vi vp) = d /\
    map rtn_index (zip_rows d vi vp) = vi /\
    map rtn_portfolio (zip_rows d vi vp) = vp.
Proof.
  induction d as [ | d0 d IH ]; intros [ | i0 vi ] [ | p0 vp ] Hi Hp;
    try discriminate; [ repeat split | ].
  cbn [length] in Hi, Hp. injection Hi as Hi. injection Hp as Hp.
  destruct (IH vi vp Hi Hp) as [H1 [H2 H3]].
  cbn [zip_rows map rtn_month_end rtn_index rtn_portfolio].
  rewrite H1, H2, H3. repeat split.
Qed.

(** What [plot_total_return] has computed when it returns. *)
Lemma plot_total_return_Ok (df_returns : DataFrame)
      (w_index w_portfolio : WeightFrame) (out : list TotalReturnRow) :
  plot_total_return df_returns w_index w_portfolio = Ok out ->
  exists ai ap : list (list cell),
    np_mul2d (map w_values (w_rows w_index))
             (map (fun r => map nan_to_num (values r)) (rows df_returns))
    = Ok ai /\
    np_mul2d (map w_values (w_rows w_portfolio))
             (map (fun r => map nan_to_num (values r)) (rows df_returns))
    = Ok ap /\
    length ai = length (rows df_returns) /\
    length ap = length (rows df_returns) /\
    out = zip_total
            (sort_values (zip_rows (map month_end (rows df_returns))
                                   (map np_sum ai) (map np_sum ap)))
            (total_return
               (map rtn_index
                    (sort_values (zip_rows (map month_end (rows df_returns))
                                           (map np_sum ai) (map np_sum ap)))))
            (total_return
               (map rtn_portfolio
                    (sort_values (zip_rows (map month_end (rows df_returns))
                                           (map np_sum ai) (map np_sum ap))))).
Proof.
  unfold plot_total_return. intros H.
  apply bind_Ok in H. destruct H as [ai [Hai H]].
  apply bind_Ok in H. destruct H as [ap [Hap H]].
  apply bind_Ok in H. destruct H as [ci [Hci H]].
  apply bind_Ok in H. destruct H as [cp [Hcp H]].
  apply assign_column_Ok in Hci. destruct Hci as [Hci Hli].
  apply assign_column_Ok in Hcp. destruct Hcp as [Hcp Hlp].
  subst ci cp. rewrite length_map in Hli, Hlp.
  injection H as H. exists ai, ap. auto.
Qed.

Lemma plot_total_return_error (df_returns : DataFrame)
      (w_index w_portfolio : WeightFrame) (e : exn) :
  plot_total_return df_returns w_index w_portfolio = Raise e ->
  e = ValueError.
Proof.
  unfold plot_total_return.
  destruct (np_mul2d (map w_values (w_rows w_index)) _) as [ai | e1] eqn:Hai;
    cbn [bind]; [ | intros H; inversion H; subst;
                    exact (np_mul2d_error _ _ _ Hai) ].
  destruct (np_mul2d (map w_values (w_rows w_portfolio)) _) as [ap | e2]
    eqn:Hap; cbn [bind]; [ | intros H; inversion H; subst;
                            exact (np_mul2d_error _ _ _ Hap) ].
  destruct (assign_column _ (map np_sum ai)) as [ci | e3] eqn:Hci;
    cbn [bind]; [ | intros H; inversion H; subst;
                    exact (assign_column_error _ _ _ Hci) ].
  destruct (assign_column _ (map np_sum ap)) as [cp | e4] eqn:Hcp;
    cbn [bind]; [ discriminate | intros H; inversion H; subst;
                                 exact (assign_column_error _ _ _ Hcp) ].
Qed.

(** X15.  Whenever [plot_total_return] returns, whatever the weights hold,
    the frame has one row per row of the return frame, its dates are the
    dates of the return frame, and they are in ascending order. *)
Theorem total_return_frame_shape (df_returns : DataFrame)
        (w_index w_portfolio : WeightFrame) (out : list TotalReturnRow) :
  plot_total_return df_returns w_index w_portfolio = Ok out ->
  length out = length (rows df_returns) /\
  Permutation (map tr_month_end out) (map month_end (rows df_returns)) /\
  Sorted Z.le (map tr_month_end out).
Proof.
  intros H. apply plot_total_return_Ok in H.
  destruct H as [ai [ap [_ [_ [Hli [Hlp Hout]]]]]].
  set (periods := zip_rows (map month_end (rows df_returns))
                           (map np_sum ai) (map np_sum ap)) in *.
  destruct (zip_rows_columns (map month_end (rows df_returns))
                             (map np_sum ai) (map np_sum ap))
    as [Hd _]; try (rewrite !length_map; assumption).
  fold periods in Hd.
  destruct (zip_total_columns (sort_values periods)
                              (total_return (map rtn_index (sort_values periods)))
                              (total_return (map rtn_portfolio (sort_values periods))))
    as [Hper _];
    try (rewrite total_return_length; apply length_map).
  rewrite <- Hout in Hper.
  assert (Hdates : map tr_month_end out
                   = map rtn_month_end (sort_values periods)).
  { rewrite <- Hper, map_map. reflexivity. }
  split; [ | split ].
  - rewrite <- (length_map tr_month_end), Hdates, length_map.
    rewrite (Permutation_length (sort_values_perm periods)).
    rewrite <- (length_map rtn_month_end periods), Hd. apply length_map.
  - rewrite Hdates, <- Hd. apply Permutation_map, sort_values_perm.
  - rewrite Hdates. apply Sorted_map_dates, sort_values_sorted.
Qed.

Lemma total_return_frame_shape_witness :
  exists out : list TotalReturnRow,
    plot_total_return small_returns small_index_weights
                      small_portfolio_weights = Ok out /\
    length out = 3 /\
    Permutation (map tr_month_end out) [31; 59; 90]%Z /\
    Sorted Z.le (map tr_month_end out).
Proof.
  eexists. split.
  - vm_compute. reflexivity.
  - eapply (total_return_frame_shape small_returns small_index_weights
                                     small_portfolio_weights).
    vm_compute. reflexivity.
Defined.

(** X16.  A weights frame whose number of rows is neither that of the
    return frame nor one makes [plot_total_return] fail with [ValueError];
    and [ValueError] is the only failure the function has. *)
Theorem weights_rows_must_match (df_returns : DataFrame)
        (w_index w_portfolio : WeightFrame) :
  (forall e : exn,
      plot_total_return df_returns w_index w_portfolio = Raise e ->
      e = ValueError) /\
  ((length (w_rows w_index) <> length (rows df_returns) /\
    length (w_rows w_index) <> 1) \/
   (length (w_rows w_portfolio) <> length (rows df_returns) /\
    length (w_rows w_portfolio) <> 1) ->
   plot_total_return df_returns w_index w_portfolio = Raise ValueError).
Proof.
  split; [ intros e; apply plot_total_return_error | ].
  intros Hbad.
  destruct (plot_total_return df_returns w_index w_portfolio)
    as [out | e] eqn:H.
  - exfalso. apply plot_total_return_Ok in H.
    destruct H as [ai [ap [Hai [Hap [Hli [Hlp _]]]]]].
    apply np_mul2d_cases in Hai, Hap. rewrite !length_map in Hai, Hap.
    destruct Hbad as [[H1 H2] | [H1 H2]]; lia.
  - f_equal. exact (plot_total_return_error _ _ _ _ H).
Qed.

(** ** NaN returns in the cumulative index *)

Lemma cumprod_from_nan (s1 s2 : list cell) :
  forall acc : Q,
    cumprod_from acc (s1 ++ NaN :: s2) =
    firstn (length s1) (cumprod_from acc (s1 ++ s2))
    ++ NaN :: skipn (length s1) (cumprod_from acc (s1 ++ s2)).
Proof.
  induction s1 as [ | [v | ] s1 IH ]; intros acc;
    cbn [app length cumprod_from firstn skipn].
  - reflexivity.
  - rewrite IH. reflexivity.
  - rewrite IH. reflexivity.
Qed.

(** X17.  A period whose realised return is NaN shows NaN in the cumulative
    index and is otherwise passed over: every other period has the index it
    would have had the NaN period not been in the series. *)
Theorem nan_return_passed_over (s1 s2 : list cell) :
  total_return (s1 ++ NaN :: s2) =
  firstn (length s1) (total_return (s1 ++ s2))
  ++ NaN :: skipn (length s1) (total_return (s1 ++ s2)).
Proof.
  unfold total_return, cumprod. rewrite !map_app. cbn [map].
  change (fadd (num 1) NaN) with NaN.
  rewrite cumprod_from_nan, <- map_app, map_app. cbn [map].
  rewrite length_map, firstn_map, skipn_map. reflexivity.
Qed.

(** ** The benchmark return *)

Lemma spec_period_return_equal_weights (c : Q) (r : list cell) :
  (spec_period_return (repeat (Some c) (length r)) r
   == c * Qsum (map number_of r))%Q.
Proof.
  induction r as [ | x r IH ].
  - cbn. ring.
  - cbn [length repeat]. rewrite spec_period_return_cons, IH.
    cbn [map Qsum fold_right number_of]. fold (Qsum (map number_of r)). ring.
Qed.

Lemma in_zip_rows (d : list date) :
  forall (vi vp : list cell) (x : RtnRow),
    In x (zip_rows d vi vp) ->
    In (rtn_month_end x, rtn_index x) (combine d vi).
Proof.
  induction d as [ | d0 d IH ]; intros vi vp x Hin; [ contradiction | ].
  destruct vi as [ | i0 vi ]; [ contradiction | ].
  destruct vp as [ | p0 vp ]; [ contradiction | ].
  cbn [zip_rows combine] in *. destruct Hin as [Hx | Hin].
  - subst x. left. reflexivity.
  - right. apply (IH vi vp x Hin).
Qed.

Lemma in_combine_period (ws : list WRow) :
  forall (rs : list Row) (d : date) (c : cell),
    In (d, c)
       (combine (map month_end rs)
                (zip_with (fun w r => Some (spec_period_return (w_values w)
                                                               (values r)))
                          ws rs)) ->
    exists (w : WRow) (r : Row),
      In w ws /\ In r rs /\ d = month_end r /\
      c = Some (spec_period_return (w_values w) (values r)).
Proof.
  induction ws as [ | w ws IH ]; intros [ | r rs ] d c Hin;
    try contradiction.
  cbn [map zip_with combine] in Hin. destruct Hin as [Hx | Hin].
  - injection Hx as Hd Hc. exists w, r. repeat split; auto; now left.
  - destruct (IH rs d c Hin) as [w' [r' [Hw [Hr [Hd Hc]]]]].
    exists w', r'. repeat split; auto; now right.
Qed.

Lemma equalise_weights_over (df : DataFrame) (wi : WeightFrame) :
  rectangular df -> equalise_weights df = Ok wi ->
  1 <= length (columns df) /\
  weights_over df wi /\
  Forall (fun w => w_values w = repeat (one_over (length (columns df)))
                                       (length (columns df))) (w_rows wi).
Proof.
  intros Hrect Heq.
  assert (Hp : 1 <= length (columns df)).
  { destruct (columns df) as [ | c cs ] eqn:Ec; [ | cbn [length]; lia ].
    unfold equalise_weights in Heq. rewrite Ec in Heq. discriminate Heq. }
  rewrite equalise_weights_eq in Heq by exact Hp. injection Heq as Heq.
  subst wi. cbn [w_rows]. split; [ exact Hp | ]. split.
  - unfold weights_over. cbn [w_rows]. unfold rectangular in Hrect.
    induction Hrect as [ | r rs Hr _ IH ]; cbn [map]; constructor.
    + cbn [w_values]. split; [ now rewrite repeat_length | ].
      apply Forall_forall. intros c Hc. apply repeat_spec in Hc. subst c.
      eexists. reflexivity.
    + exact IH.
  - apply Forall_forall. intros w Hw. apply in_map_iff in Hw.
    destruct Hw as [r [Hr _]]. subst w. reflexivity.
Qed.

(** X18.  With the weights of [equalise_weights] as the index weights, the
    index return of every period is the sum of that period's stock returns,
    a missing return counted as 0, over the number of stocks in the
    universe: a stock without a return that month still takes its share of
    the weight. *)
Theorem benchmark_return_is_average (df_returns : DataFrame)
        (wi wp : WeightFrame) :
  rectangular df_returns ->
  equalise_weights df_returns = Ok wi ->
  weights_over df_returns wp ->
  exists out : list TotalReturnRow,
    plot_total_return df_returns wi wp = Ok out /\
    Forall (fun row =>
              exists r : Row,
                In r (rows df_returns) /\
                tr_month_end row = month_end r /\
                cell_eq (index row)
                        (Some (Qsum (map number_of (values r))
                               / Qcount (columns df_returns))%Q))
           out.
Proof.
  intros Hrect Heq Hp.
  destruct (equalise_weights_over df_returns wi Hrect Heq)
    as [Hpos [Hi Hvals]].
  rewrite (plot_total_return_eq _ _ _ Hi Hp). cbv zeta.
  set (periods := spec_period_rows df_returns wi wp).
  set (df_rtn := sort_values periods).
  eexists. split; [ reflexivity | ].
  destruct (zip_total_columns df_rtn (total_return (map rtn_index df_rtn))
                              (total_return (map rtn_portfolio df_rtn)))
    as [Hper _];
    try (rewrite total_return_length; apply length_map).
  apply Forall_forall. intros row Hrow.
  assert (Hin : In (period_of row) periods).
  { apply (Permutation_in _ (sort_values_perm periods)).
    fold df_rtn. rewrite <- Hper. apply in_map. exact Hrow. }
  unfold periods, spec_period_rows in Hin.
  apply in_zip_rows in Hin. apply in_combine_period in Hin.
  destruct Hin as [w [r [Hw [Hr [Hd Hc]]]]].
  cbn [period_of rtn_month_end rtn_index] in Hd, Hc.
  exists r. split; [ exact Hr | ]. split; [ exact Hd | ].
  rewrite Hc. cbn [cell_eq].
  rewrite Forall_forall in Hvals. rewrite (Hvals w Hw).
  unfold rectangular in Hrect. rewrite Forall_forall in Hrect.
  rewrite <- (Hrect r Hr). unfold one_over.
  rewrite spec_period_return_equal_weights.
  unfold Qcount. rewrite (Hrect r Hr). field.
  intros H0. unfold Qeq, inject_Z in H0. cbn [Qnum Qden] in H0. lia.
Qed.

Lemma benchmark_return_is_average_witness :
  exists out : list TotalReturnRow,
    plot_total_return small_returns small_index_weights
                      small_portfolio_weights = Ok out /\
    Forall (fun row =>
              exists r : Row,
                In r (rows small_returns) /\
                tr_month_end row = month_end r /\
                cell_eq (index row)
                        (Some (Qsum (map number_of (values r))
                               / Qcount (columns small_returns))%Q))
           out.
Proof.
  apply (benchmark_return_is_average small_returns small_index_weights
                                     small_portfolio_weights).
  - repeat constructor.
  - reflexivity.
  - unfold weights_over; cbn [w_rows rows small_returns small_portfolio_weights];
      repeat (constructor;
              [ split; [ reflexivity
                       | repeat (constructor; [ eexists; reflexivity | ]);
                         constructor ]
              | ]);
      constructor.
Defined.

(** ** The script as a whole *)

Lemma plot_total_return_same_rows (df_returns : DataFrame)
      (w_index w_portfolio : WeightFrame) :
  length (w_rows w_index) = length (rows df_returns) ->
  length (w_rows w_portfolio) = length (rows df_returns) ->
  plot_total_return df_returns w_index w_portfolio =
  let ar_returns :=
    map (fun r => map nan_to_num (values r)) (rows df_returns) in
  let df_rtn :=
    sort_values
      (zip_rows (map month_end (rows df_returns))
                (map np_sum (zip_with (zip_with fmul)
                                      (map w_values (w_rows w_index))
                                      ar_returns))
                (map np_sum (zip_with (zip_with fmul)
                                      (map w_values (w_rows w_portfolio))
                                      ar_returns))) in
  Ok (zip_total df_rtn (total_return (map rtn_index df_rtn))
                (total_return (map rtn_portfolio df_rtn))).
Proof.
  intros Li Lp. unfold plot_total_return.
  rewrite !np_mul2d_same_rows by (rewrite !length_map; assumption).
  cbn [bind]. unfold assign_column.
  rewrite !length_map, !zip_with_length by (rewrite !length_map; assumption).
  rewrite !length_map, Li, Lp, Nat.eqb_refl. cbn [bind]. reflexivity.
Qed.

Lemma schedule_length (np_sqrt : cell -> cell) (minimize : solver)
      (df_train df_test : DataFrame) :
  length (w_rows (schedule np_sqrt minimize df_train df_test))
  = length (rows (concat_returns df_train df_test)).
Proof.
  unfold schedule, concat_returns. cbn [w_rows rows].
  rewrite rows_after_length, length_app. unfold training_weights.
  cbn [w_rows]. now rewrite length_map.
Qed.

Lemma run_solution_inv (np_sqrt : cell -> cell) (minimize : solver)
      (df_train df_test : DataFrame) (r : DataFrame) (w : WeightFrame) :
  generate_portfolio np_sqrt minimize df_train df_test = Ok (r, w) ->
  run_solution np_sqrt minimize df_train df_test =
  plot_total_return (concat_returns df_train df_test)
                    (training_weights (concat_returns df_train df_test))
                    (schedule np_sqrt minimize df_train df_test).
Proof.
  intros H. unfold run_solution. rewrite H. cbn [bind fst snd].
  apply generate_portfolio_Ok_inv in H. destruct H as [Hb _].
  apply build_weights_inv in Hb. destruct Hb as [Hp [_ [Hr Hw]]].
  rewrite equalise_weights_eq by exact Hp. cbn [bind].
  subst r w. reflexivity.
Qed.

Lemma plot_total_return_length (df_returns : DataFrame)
      (w_index w_portfolio : WeightFrame) (out : list TotalReturnRow) :
  plot_total_return df_returns w_index w_portfolio = Ok out ->
  length out = length (rows df_returns).
Proof.
  intros H. apply plot_total_return_Ok in H.
  destruct H as [ai [ap [_ [_ [Hli [Hlp Hout]]]]]].
  set (periods := sort_values
                    (zip_rows (map month_end (rows df_returns))
                              (map np_sum ai) (map np_sum ap))) in *.
  destruct (zip_total_columns periods (total_return (map rtn_index periods))
                              (total_return (map rtn_portfolio periods)))
    as [Hper _];
    try (rewrite total_return_length; apply length_map).
  rewrite <- Hout in Hper.
  rewrite <- (length_map period_of), Hper. unfold periods.
  rewrite (Permutation_length (sort_values_perm _)).
  rewrite zip_rows_length by (rewrite !length_map; assumption).
  apply length_map.
Qed.

(** X19.  In the script, a portfolio that [generate_portfolio] returns can
    always be plotted: the benchmark weights over the combined frame and the
    returned schedule both have one row per period, so [plot_total_return]
    does not fail and gives one row per training and per test row. *)
Theorem run_solution_returns (np_sqrt : cell -> cell) (minimize : solver)
        (df_train df_test r : DataFrame) (w : WeightFrame) :
  generate_portfolio np_sqrt minimize df_train df_test = Ok (r, w) ->
  exists out : list TotalReturnRow,
    run_solution np_sqrt minimize df_train df_test = Ok out /\
    length out = length (rows df_train) + length (rows df_test).
Proof.
  intros H. rewrite (run_solution_inv _ _ _ _ _ _ H).
  destruct (plot_total_return (concat_returns df_train df_test)
                              (training_weights (concat_returns df_train df_test))
                              (schedule np_sqrt minimize df_train df_test))
    as [out | e] eqn:Hplot.
  - exists out. split; [ reflexivity | ].
    rewrite (plot_total_return_length _ _ _ _ Hplot).
    unfold concat_returns. cbn [rows]. apply length_app.
  - exfalso. rewrite plot_total_return_same_rows in Hplot.
    + discriminate Hplot.
    + unfold training_weights. cbn [w_rows]. now rewrite length_map.
    + apply schedule_length.
Qed.

Lemma run_solution_returns_witness :
  exists out : list TotalReturnRow,
    run_solution rational_sqrt settled_solver train_two test_two = Ok out /\
    length out = 2 + 2.
Proof.
  eapply (run_solution_returns rational_sqrt settled_solver train_two test_two).
  vm_compute. reflexivity.
Defined.

Lemma insert_by_date_front (r : RtnRow) (l : list RtnRow) :
  increasing (map rtn_month_end (r :: l)) = true ->
  insert_by_date r l = r :: l.
Proof.
  destruct l as [ | h t ]; [ reflexivity | ].
  cbn [map increasing insert_by_date]. intros H.
  apply andb_true_iff in H. destruct H as [H _]. apply Z.ltb_lt in H.
  destruct (Z.leb_spec (rtn_month_end r) (rtn_month_end h)); [ reflexivity | lia ].
Qed.

(** A frame of increasing dates is left as it is by the sort. *)
Lemma sort_values_increasing (l : list RtnRow) :
  increasing (map rtn_month_end l) = true -> sort_values l = l.
Proof.
  induction l as [ | r l IH ]; intros H; [ reflexivity | ].
  unfold sort_values in *. cbn [fold_right]. cbn [map] in H.
  destruct (increasing_cons _ _ H) as [_ Hl]. rewrite (IH Hl).
  apply insert_by_date_front. exact H.
Qed.

Lemma firstn_zip_with {A B C : Type} (f : A -> B -> C) (n : nat) :
  forall (a : list A) (b : list B),
    firstn n (zip_with f a b) = zip_with f (firstn n a) (firstn n b).
Proof.
  induction n as [ | n IH ]; intros a b; [ reflexivity | ].
  destruct a as [ | x a ]; [ reflexivity | ].
  destruct b as [ | y b ]; [ reflexivity | ].
  cbn [zip_with firstn]. now rewrite IH.
Qed.

Lemma cumprod_from_firstn (n : nat) :
  forall (s : list cell) (acc : Q),
    firstn n (cumprod_from acc s) = cumprod_from acc (firstn n s).
Proof.
  induction n as [ | n IH ]; intros s acc; [ reflexivity | ].
  destruct s as [ | [v | ] s ]; cbn [cumprod_from firstn];
    [ reflexivity | | ]; now rewrite IH.
Qed.

(** The index up to a period depends on the returns up to that period
    only. *)
Lemma total_return_firstn (n : nat) (s : list cell) :
  firstn n (total_return s) = total_return (firstn n s).
Proof.
  unfold total_return, cumprod.
  now rewrite firstn_map, cumprod_from_firstn, firstn_map.
Qed.

Lemma firstn_repeat_add {A : Type} (x : A) (a b : nat) :
  firstn a (repeat x (a + b)) = repeat x a.
Proof.
  rewrite repeat_app, firstn_app, repeat_length, Nat.sub_diag, firstn_O,
    app_nil_r.
  apply firstn_all2. now rewrite repeat_length.
Qed.

Lemma training_rows_equal_weights (np_sqrt : cell -> cell) (minimize : solver)
      (df_train df_test : DataFrame) :
  firstn (length (rows df_train))
         (map w_values
              (w_rows (training_weights (concat_returns df_train df_test))))
  = firstn (length (rows df_train))
           (map w_values
                (w_rows (schedule np_sqrt minimize df_train df_test))).
Proof.
  rewrite training_weights_values. unfold schedule. cbn [w_rows].
  rewrite rows_after_values, training_weights_values.
  unfold concat_returns. cbn [rows columns]. rewrite length_app.
  rewrite firstn_repeat_add, firstn_app, repeat_length, Nat.sub_diag,
    firstn_O, app_nil_r.
  symmetry. apply firstn_all2. now rewrite repeat_length.
Qed.

(** X20.  In the script, when the dates increase strictly through the
    training frame and on through the test frame, the rows of the result
    are in the order of the combined frame, and over the training rows the
    portfolio is the benchmark: the per-period returns and the cumulative
    indices of the two strategies agree on every training row. *)
Theorem portfolio_tracks_index_in_training (np_sqrt : cell -> cell)
        (minimize : solver) (df_train df_test : DataFrame)
        (out : list TotalReturnRow) :
  run_solution np_sqrt minimize df_train df_test = Ok out ->
  walk_forward_ordered df_train df_test = true ->
  let n_train := length (rows df_train) in
  map tr_month_end out =
    map month_end (rows df_train) ++ map month_end (rows df_test) /\
  firstn n_train (map index out) = firstn n_train (map portfolio out) /\
  firstn n_train (map index_tr out) = firstn n_train (map portfolio_tr out).
Proof.
  intros Hrun Hord n_train.
  assert (Hgen : exists r w,
             generate_portfolio np_sqrt minimize df_train df_test = Ok (r, w)).
  { unfold run_solution in Hrun.
    apply bind_Ok in Hrun. destruct Hrun as [wi [_ Hrun]].
    apply bind_Ok in Hrun. destruct Hrun as [[r w] [Hg _]]. eauto. }
  destruct Hgen as [r [w Hgen]].
  rewrite (run_solution_inv _ _ _ _ _ _ Hgen) in Hrun.
  rewrite plot_total_return_same_rows in Hrun;
    [ | unfold training_weights; cbn [w_rows]; now rewrite length_map
      | apply schedule_length ].
  cbv zeta in Hrun.
  set (df_returns := concat_returns df_train df_test) in *.
  set (ar := map (fun r0 : Row => map nan_to_num (values r0))
                 (rows df_returns)) in *.
  set (vi := map np_sum
                 (zip_with (zip_with fmul)
                           (map w_values (w_rows (training_weights df_returns)))
                           ar)) in *.
  set (vp := map np_sum
                 (zip_with (zip_with fmul)
                           (map w_values
                                (w_rows (schedule np_sqrt minimize df_train
                                                  df_test)))
                           ar)) in *.
  assert (Lar : length ar = length (rows df_returns))
    by (unfold ar; apply length_map).
  assert (Lwi : length (map w_values (w_rows (training_weights df_returns)))
                = length ar).
  { rewrite length_map, Lar. unfold training_weights. cbn [w_rows].
    apply length_map. }
  assert (Lwp : length (map w_values
                            (w_rows (schedule np_sqrt minimize df_train df_test)))
                = length ar).
  { rewrite length_map, Lar. apply schedule_length. }
  assert (Lvi : length vi = length (map month_end (rows df_returns))).
  { unfold vi. rewrite length_map, (zip_with_length _ _ _ Lwi), Lwi, Lar.
    symmetry. apply length_map. }
  assert (Lvp : length vp = length (map month_end (rows df_returns))).
  { unfold vp. rewrite length_map, (zip_with_length _ _ _ Lwp), Lwp, Lar.
    symmetry. apply length_map. }
  destruct (zip_rows_columns _ _ _ Lvi Lvp) as [Hd [Hci Hcp]].
  assert (Hsorted : sort_values (zip_rows (map month_end (rows df_returns)) vi vp)
                    = zip_rows (map month_end (rows df_returns)) vi vp).
  { apply sort_values_increasing. rewrite Hd.
    unfold df_returns, concat_returns. cbn [rows]. rewrite map_app.
    exact Hord. }
  rewrite Hsorted, Hci, Hcp in Hrun. apply (f_equal (fun x => match x with Ok o => o | Raise _ => [] end)) in Hrun.
  cbv beta iota in Hrun. subst out.
  destruct (zip_total_columns
              (zip_rows (map month_end (rows df_returns)) vi vp)
              (total_return vi) (total_return vp))
    as [Hper [Hitr Hptr]];
    try (rewrite total_return_length, zip_rows_length; congruence).
  set (out := zip_total (zip_rows (map month_end (rows df_returns)) vi vp)
                        (total_return vi) (total_return vp)) in *.
  assert (Hprefix : firstn n_train vi = firstn n_train vp).
  { unfold vi, vp. rewrite !firstn_map, !firstn_zip_with.
    unfold n_train, df_returns.
    now rewrite (training_rows_equal_weights np_sqrt minimize). }
  split; [ | split ].
  - replace (map tr_month_end out)
      with (map rtn_month_end (map period_of out)) by (now rewrite map_map).
    rewrite Hper, Hd. unfold df_returns, concat_returns. cbn [rows].
    apply map_app.
  - replace (map index out) with (map rtn_index (map period_of out))
      by (now rewrite map_map).
    replace (map portfolio out) with (map rtn_portfolio (map period_of out))
      by (now rewrite map_map).
    rewrite Hper, Hci, Hcp. exact Hprefix.
  - rewrite Hitr, Hptr, !total_return_firstn, Hprefix. reflexivity.
Qed.

Lemma portfolio_tracks_index_in_training_witness :
  exists out : list TotalReturnRow,
    run_solution rational_sqrt settled_solver train_two test_two = Ok out /\
    map tr_month_end out = [31; 59; 90; 120]%Z /\
    firstn 2 (map index out) = firstn 2 (map portfolio out) /\
    firstn 2 (map index_tr out) = firstn 2 (map portfolio_tr out).
Proof.
  eexists. split.
  - vm_compute. reflexivity.
  - apply (portfolio_tracks_index_in_training rational_sqrt settled_solver
                                              train_two test_two).
    + vm_compute. reflexivity.
    + reflexivity.
Defined.
